(** * piker: the execution management system ([piker/_ems.py])

    A shallow embedding of the order book, the alert predicate generator,
    the feed task's price-action loop and the order router, followed by
    the properties proved about them.

    Python values are modelled as follows.
    - A [float] is an IEEE-754 value ([spec_float]); the comparison
      operators are the IEEE ones, so every comparison with a NaN is false.
    - A [dict] used as a table is a [gmap]; a quote batch, whose iteration
      order matters, is an association list.
    - A command dict is the record [cmd_dict]; the three keys the feed task
      adds when an order triggers are optional fields.
    - Code that raises or mutates the book lives in a state-and-exception
      monad [M]; the state a raising computation leaves behind is kept. *)

From Stdlib Require Import ZArith List Bool Lia.
From Stdlib Require Import Floats.SpecFloat.
From stdpp Require Import gmap strings list fin_maps.

Local Open Scope string_scope.
Local Open Scope list_scope.

(** ** Floats *)

Module PyFloat.

Definition float := spec_float.

(** [float(z)] for an integer literal. *)
Definition of_Z (z : Z) : float := binary_normalize 53 1024 z 0 false.

Definition is_nan (x : float) : bool :=
  match x with S754_nan => true | _ => false end.

(** [a >= b] *)
Definition ge (a b : float) : bool :=
  match SFcompare a b with
  | Some Gt | Some Eq => true
  | _ => false
  end.

(** [a <= b] *)
Definition le (a b : float) : bool := SFleb a b.

(** [a < b] *)
Definition lt (a b : float) : bool := SFltb a b.

(** [a == b] *)
Definition eq (a b : float) : bool := SFeqb a b.

(** The integer literal [0] of the guard [price < 0]. *)
Definition zero : float := S754_zero false.

End PyFloat.

Import PyFloat.

(** ** Exceptions and the monad *)

Inductive exn : Type :=
  | KeyError
  | IndexError
  | TypeError
  | ValueError
  | AttributeError.

Inductive result (A : Type) : Type :=
  | Ok (a : A)
  | Raise (e : exn).

Arguments Ok {A} a.
Arguments Raise {A} e.

Definition M (S A : Type) : Type := S -> result A * S.

Definition ret {S A} (a : A) : M S A := fun st => (Ok a, st).

Definition bind {S A B} (m : M S A) (k : A -> M S B) : M S B :=
  fun st =>
    match m st with
    | (Ok a, st') => k a st'
    | (Raise e, st') => (Raise e, st')
    end.

Definition raise {S A} (e : exn) : M S A := fun st => (Raise e, st).

Definition gets {S A} (f : S -> A) : M S A := fun st => (Ok (f st), st).

Definition modify {S} (f : S -> S) : M S unit := fun st => (Ok tt, f st).

Declare Scope py_scope.
Delimit Scope py_scope with py.

Notation "x <- m ;; k" := (bind m (fun x => k))
  (at level 100, m at next level, right associativity) : py_scope.
Notation "m ;; k" := (bind m (fun _ => k))
  (at level 100, right associativity) : py_scope.

Local Open Scope py_scope.

(** [for x in l: body(x)]; [continue] is the body returning. *)
Fixpoint for_ {S A} (l : list A) (body : A -> M S unit) : M S unit :=
  match l with
  | [] => ret tt
  | x :: l' => body x ;; for_ l' body
  end.

(** [d[k]] on a value that may be missing. *)
Definition subscript {S A} (o : option A) : M S A :=
  match o with
  | Some a => ret a
  | None => raise KeyError
  end.

(** ** Commands and messages *)

(** The dict built by [OrderBook.alert], with the keys [exec_orders] adds
    when the order triggers. *)
Record cmd_dict : Type := {
  cmd_msg : string;
  cmd_price : float;
  cmd_symbol : string;
  cmd_brokers : list string;
  cmd_oid : string;
  cmd_name : option string;
  cmd_index : option Z;
  cmd_trigger_price : option float
}.

(** What [ctx.send_yield] is given: the triggered command dict, or the
    acknowledgement [{'msg': 'ack', 'oid': oid}]. *)
Inductive wire_msg : Type :=
  | CmdMsg (cmd : cmd_dict)
  | AckMsg (oid : string).

Definition wire_oid (m : wire_msg) : string :=
  match m with
  | CmdMsg cmd => cmd_oid cmd
  | AckMsg oid => oid
  end.

(** ** The client-side book *)

Record OrderBook : Type := {
  _sent_orders : gmap string cmd_dict;
  _confirmed_orders : gmap string cmd_dict
}.

Definition on_fill (uuid : string) : M OrderBook unit :=
  cmd <- (fun self => subscript (_sent_orders self !! uuid) self) ;;
  modify (fun self =>
    {| _sent_orders := _sent_orders self;
       _confirmed_orders := <[uuid := cmd]> (_confirmed_orders self) |}).

(** ** The alert predicate *)

Definition mk_check (trigger_price known_last : float)
  : option ((float -> bool) * string) :=
  if ge trigger_price known_last then
    Some ((fun price => ge price trigger_price), "down")
  else if le trigger_price known_last then
    Some ((fun price => le price trigger_price), "up")
  else None.

(** ** The execution book *)

(** One element of [book.orders[(broker, sym)]]: the tuple
    [(oid, pred, name, cmd)].  Python compares function objects by
    identity and tries identity first on the dict, so the closure
    and the dict each carry the stamp of their allocation. *)
Record pending : Type := {
  p_oid : string;
  p_pred : float -> bool;
  p_pred_obj : nat;
  p_name : string;
  p_cmd : cmd_dict;
  p_cmd_obj : nat
}.

Definition option_eqb {A} (eqb : A -> A -> bool) (a b : option A) : bool :=
  match a, b with
  | Some x, Some y => eqb x y
  | None, None => true
  | _, _ => false
  end.

Fixpoint list_eqb {A} (eqb : A -> A -> bool) (a b : list A) : bool :=
  match a, b with
  | [], [] => true
  | x :: a', y :: b' => eqb x y && list_eqb eqb a' b'
  | _, _ => false
  end.

(** [==] on two command dicts: same keys, equal values. *)
Definition cmd_dict_eqb (a b : cmd_dict) : bool :=
  String.eqb (cmd_msg a) (cmd_msg b)
  && eq (cmd_price a) (cmd_price b)
  && String.eqb (cmd_symbol a) (cmd_symbol b)
  && list_eqb String.eqb (cmd_brokers a) (cmd_brokers b)
  && String.eqb (cmd_oid a) (cmd_oid b)
  && option_eqb String.eqb (cmd_name a) (cmd_name b)
  && option_eqb Z.eqb (cmd_index a) (cmd_index b)
  && option_eqb eq (cmd_trigger_price a) (cmd_trigger_price b).

(** [==] on two order tuples, component by component. *)
Definition pending_eqb (a b : pending) : bool :=
  String.eqb (p_oid a) (p_oid b)
  && Nat.eqb (p_pred_obj a) (p_pred_obj b)
  && String.eqb (p_name a) (p_name b)
  && (Nat.eqb (p_cmd_obj a) (p_cmd_obj b) || cmd_dict_eqb (p_cmd a) (p_cmd b)).

(** [l.remove(x)]: drops the first element equal to [x]; [None] stands
    for the [ValueError] raised when there is none. *)
Fixpoint list_remove (x : pending) (l : list pending) : option (list pending) :=
  match l with
  | [] => None
  | y :: l' =>
      if pending_eqb y x then Some l'
      else option_map (cons y) (list_remove x l')
  end.

Abbreviation key := (string * string)%type.

Record _ExecBook : Type := {
  orders : gmap key (list pending);
  lasts : gmap key float
}.

(** The state of the EMS actor: the book singleton, the messages sent on
    [ctx] so far (oldest first), the feed tasks started in the router's
    nursery (oldest first) and the allocation counter. *)
Record actor : Type := {
  book : _ExecBook;
  sent : list wire_msg;
  nursery : list key;
  next_obj : nat
}.

Definition get_book : M actor _ExecBook := gets book.

Definition set_orders (f : gmap key (list pending) -> gmap key (list pending))
  : M actor unit :=
  modify (fun st =>
    {| book := {| orders := f (orders (book st)); lasts := lasts (book st) |};
       sent := sent st; nursery := nursery st; next_obj := next_obj st |}).

(** [book.lasts[k] = v] *)
Definition set_last (k : key) (v : float) : M actor unit :=
  modify (fun st =>
    {| book := {| orders := orders (book st);
                  lasts := <[k := v]> (lasts (book st)) |};
       sent := sent st; nursery := nursery st; next_obj := next_obj st |}).

(** [await ctx.send_yield(m)] *)
Definition send_yield (m : wire_msg) : M actor unit :=
  modify (fun st =>
    {| book := book st; sent := sent st ++ [m];
       nursery := nursery st; next_obj := next_obj st |}).

(** A task enters the nursery. *)
Definition start_task (k : key) : M actor unit :=
  modify (fun st =>
    {| book := book st; sent := sent st;
       nursery := nursery st ++ [k]; next_obj := next_obj st |}).

(** A new object is allocated. *)
Definition fresh : M actor nat :=
  fun st =>
    (Ok (next_obj st),
     {| book := book st; sent := sent st;
        nursery := nursery st; next_obj := S (next_obj st) |}).

(** ** Quotes *)

Record tick : Type := { tick_price : option float }.

Record quote : Type := {
  quote_last : option float;
  quote_ticks : option (list tick)
}.

(** A quote batch: the dict from symbol to quote, in iteration order. *)
Definition quotes : Type := list (string * quote).

Fixpoint quotes_get (q : quotes) (sym : string) : option quote :=
  match q with
  | [] => None
  | (s, v) :: q' => if String.eqb s sym then Some v else quotes_get q' sym
  end.

(** ** The feed task: [exec_orders] *)

(** The command dict after the three assignments of the trigger branch. *)
Definition trigger_cmd (e : pending) (shm_last : Z) (price : float) : cmd_dict :=
  {| cmd_msg := cmd_msg (p_cmd e);
     cmd_price := cmd_price (p_cmd e);
     cmd_symbol := cmd_symbol (p_cmd e);
     cmd_brokers := cmd_brokers (p_cmd e);
     cmd_oid := cmd_oid (p_cmd e);
     cmd_name := Some (p_name e);
     cmd_index := Some (shm_last - 1)%Z;
     cmd_trigger_price := Some price |}.

(** [execs.remove((oid, pred, name, cmd))], [execs] being the list object
    stored under [k] in [book.orders]. *)
Definition execs_remove (k : key) (x : pending) : M actor unit :=
  b <- get_book ;;
  match orders b !! k with
  | None => raise AttributeError
  | Some l =>
      match list_remove x l with
      | None => raise ValueError
      | Some l' => set_orders (fun o => <[k := l']> o)
      end
  end.

Section ExecOrders.

(** The task's arguments, and [feed.shm._last.value] as read while the
    batch is handled. *)
Variables (broker symbol : string) (shm_last : Z).

(** The body of [for oid, pred, name, cmd in tuple(execs)].  The three
    assignments update the command dict in place, so the tuple handed to
    [remove] holds the updated dict under the stamp it had. *)
Definition exec_order (sym : string) (price : float) (e : pending)
  : M actor unit :=
  if p_pred e price then
    let cmd := trigger_cmd e shm_last price in
    send_yield (CmdMsg cmd) ;;
    execs_remove (broker, sym)
      {| p_oid := p_oid e; p_pred := p_pred e; p_pred_obj := p_pred_obj e;
         p_name := p_name e; p_cmd := cmd; p_cmd_obj := p_cmd_obj e |}
  else ret tt.

(** The body of [for tick in quote.get('ticks', ())].  [execs] is the
    list object fetched before the loop, so each tick reads the current
    contents stored under the same key. *)
Definition exec_tick (sym : string) (t : tick) : M actor unit :=
  match tick_price t with
  | None => raise TypeError
  | Some price =>
      if lt price zero then ret tt
      else
        set_last (broker, symbol) price ;;
        b <- get_book ;;
        match orders b !! (broker, sym) with
        | None => ret tt
        | Some [] => ret tt
        | Some execs => for_ execs (exec_order sym price)
        end
  end.

(** The body of [for sym, quote in quotes.items()]. *)
Definition exec_quote (sq : string * quote) : M actor unit :=
  let '(sym, q) := sq in
  for_ (default [] (quote_ticks q)) (exec_tick sym).

(** The body of [async for quotes in stream]. *)
Definition exec_quotes (qs : quotes) : M actor unit :=
  for_ qs exec_quote.

End ExecOrders.

(** The feed task over the batches its stream delivers, each with the
    value of the shared-memory index at that time. *)
Definition exec_orders_stream (broker symbol : string)
    (stream : list (Z * quotes)) : M actor unit :=
  for_ stream (fun '(shm_last, qs) => exec_quotes broker symbol shm_last qs).

Section Router.

(** The data feed: the first quote batch [feed.receive()] delivers for
    a feed opened on [(broker, [symbol])]. *)
Variable first_quote : string -> string -> quotes.

(** [exec_orders] from its start to [task_status.started]. *)
Definition exec_orders_started (broker symbol : string) : M actor unit :=
  start_task (broker, symbol) ;;
  q <- subscript (quotes_get (first_quote broker symbol) symbol) ;;
  last <- subscript (quote_last q) ;;
  set_last (broker, symbol) last.

(** The body of [async for cmd in ...] in [stream_and_route]; each
    command received is a new dict.  The [cancel] branch is [pass]; the
    calls to the logger and to [print] are left out. *)
Definition stream_and_route_body (cmd : cmd_dict) : M actor unit :=
  cmd_obj <- fresh ;;
  let msg := cmd_msg cmd in
  (if String.eqb msg "cancel" then ret tt else ret tt) ;;
  let trigger_price := cmd_price cmd in
  let sym := cmd_symbol cmd in
  let brokers := cmd_brokers cmd in
  let oid := cmd_oid cmd in
  match brokers with
  | [] => raise IndexError
  | broker :: _ =>
      b <- get_book ;;
      (match lasts b !! (broker, sym) with
       | None => exec_orders_started broker sym
       | Some _ => ret tt
       end) ;;
      b <- get_book ;;
      last <- subscript (lasts b !! (broker, sym)) ;;
      match mk_check trigger_price last with
      | None => raise TypeError
      | Some (pred, name) =>
          pred_obj <- fresh ;;
          set_orders (fun o =>
            <[(broker, sym) :=
                (default [] (o !! (broker, sym))
                 ++ [ {| p_oid := oid; p_pred := pred; p_pred_obj := pred_obj;
                         p_name := name; p_cmd := cmd; p_cmd_obj := cmd_obj |} ])%list
             ]> o) ;;
          send_yield (AckMsg oid)
      end
  end.

(** The router over the commands its stream delivers. *)
Definition stream_and_route (cmds : list cmd_dict) : M actor unit :=
  for_ cmds stream_and_route_body.

(** ** The actor as a whole *)

(** What the actor's tasks react to: a command arriving at the router,
    or a quote batch arriving at the feed task of [(broker, symbol)].
    The router waits for a feed task it starts.  The feed task only
    suspends in [send_yield], where all the router can do to the list
    being walked is append to it, which the snapshot does not see: a
    command handled there acts as one handled after the tick, and a trace
    that lets commands in between the ticks of a batch gives the batch in
    pieces. *)
Inductive input : Type :=
  | Command (cmd : cmd_dict)
  | Quotes (broker symbol : string) (shm_last : Z) (qs : quotes).

Definition key_eqb (a b : key) : bool :=
  String.eqb (fst a) (fst b) && String.eqb (snd a) (snd b).

Definition step (i : input) : M actor unit :=
  match i with
  | Command cmd => stream_and_route_body cmd
  | Quotes broker symbol shm_last qs =>
      tasks <- gets nursery ;;
      if existsb (key_eqb (broker, symbol)) tasks
      then exec_quotes broker symbol shm_last qs
      else ret tt
  end.

Definition run (trace : list input) : M actor unit := for_ trace step.

End Router.

(** The actor before any command: [get_book()] creates an empty book. *)
Definition init : actor :=
  {| book := {| orders := ∅; lasts := ∅ |};
     sent := []; nursery := []; next_obj := 0 |}.

(** ** Vocabulary of the statements *)

(** The key the router files a command under. *)
Definition cmd_key (cmd : cmd_dict) : option key :=
  match cmd_brokers cmd with
  | [] => None
  | broker :: _ => Some (broker, cmd_symbol cmd)
  end.

(** The list stored under [k] in [book.orders], empty when there is none. *)
Definition bucket (st : actor) (k : key) : list pending :=
  default [] (orders (book st) !! k).

(** How many pending orders of a sequence carry the oid [o]. *)
Definition count_oid (o : string) (l : list pending) : nat :=
  length (List.filter (fun e => String.eqb (p_oid e) o) l).

(** The messages one tick at [price] sends for a snapshot [l]. *)
Definition triggers_of (shm_last : Z) (price : float) (l : list pending)
  : list wire_msg :=
  map (fun e => CmdMsg (trigger_cmd e shm_last price))
      (List.filter (fun e => p_pred e price) l).

(** The actor after a tick has left [l'] under [k] and sent [new]. *)
Definition after_snapshot (st : actor) (k : key) (l' : list pending)
    (new : list wire_msg) : actor :=
  {| book := {| orders := <[k := l']> (orders (book st));
                lasts := lasts (book st) |};
     sent := sent st ++ new; nursery := nursery st; next_obj := next_obj st |}.

(** The trigger messages for oid [o] filed under key [k]. *)
Definition is_trigger_for (k : key) (o : string) (m : wire_msg) : bool :=
  match m with
  | CmdMsg cmd =>
      String.eqb (cmd_oid cmd) o
      && option_eqb key_eqb (cmd_key cmd) (Some k)
  | AckMsg _ => false
  end.

Definition count_triggers (k : key) (o : string) (ms : list wire_msg) : nat :=
  length (List.filter (is_trigger_for k o) ms).

(** [tick.get('price')] is not [None]. *)
Definition has_price (t : tick) : bool :=
  match tick_price t with Some _ => true | None => false end.

(** Every tick of every quote of the batch carries a price. *)
Definition all_priced (qs : quotes) : bool :=
  forallb (fun sq : string * quote =>
             forallb has_price (default [] (quote_ticks (snd sq)))) qs.

(** The messages for oid [o], whatever their key. *)
Definition is_trigger_oid (o : string) (m : wire_msg) : bool :=
  match m with
  | CmdMsg cmd => String.eqb (cmd_oid cmd) o
  | AckMsg _ => false
  end.

(** An order tuple as the router builds it for the key [k]. *)
Definition pending_wf (k : key) (e : pending) : Prop :=
  p_oid e = cmd_oid (p_cmd e) /\ cmd_key (p_cmd e) = Some k.

Definition book_wf (b : _ExecBook) : Prop :=
  forall k l e, orders b !! k = Some l -> e ∈ l -> pending_wf k e.

(** How many of the started feed tasks are the task of key [k]. *)
Definition count_tasks (k : key) (tasks : list key) : nat :=
  length (List.filter (key_eqb k) tasks).

(** What the feed task of key [wk] does to the last prices and the
    nursery: it starts no task, writes no last price but its own, and
    leaves a last price where there was one. *)
Definition feed_writes (wk : key) (st st' : actor) : Prop :=
  nursery st' = nursery st
  /\ (forall k, k ≠ wk -> lasts (book st') !! k = lasts (book st) !! k)
  /\ (is_Some (lasts (book st) !! wk) -> is_Some (lasts (book st') !! wk)).

(** The feed tasks in the nursery are the keys with a last price, one
    task each. *)
Definition tasks_match_lasts (st : actor) : Prop :=
  forall k,
    count_tasks k (nursery st)
    = match lasts (book st) !! k with Some _ => 1 | None => 0 end.

(** What a run of the feed task keeps, for the orders with oid [o] under
    the key [k], when it only handles quotes whose key satisfies [K]: the
    book stays as the router builds it, messages are only added, each
    trigger message for [(k, o)] takes one such order out of the book, and
    every message is a trigger filed under a key in [K]. *)
Definition fire_rel (K : key -> Prop) (k : key) (o : string)
    (st st' : actor) : Prop :=
  book_wf (book st) ->
  book_wf (book st')
  /\ exists new,
       sent st' = sent st ++ new
       /\ count_triggers k o new + count_oid o (bucket st' k)
          = count_oid o (bucket st k)
       /\ Forall (fun m => exists cmd k',
                    m = CmdMsg cmd /\ cmd_key cmd = Some k' /\ K k') new.

(** ** A worked example

    Broker "B" quotes symbol "X" at 60 when its feed is opened.  The
    client sends two alerts, "o1" at 50 and "o2" at 55, and later a
    cancel for "o1". *)

Definition f47 : float := Eval vm_compute in of_Z 47.
Definition f48 : float := Eval vm_compute in of_Z 48.
Definition f50 : float := Eval vm_compute in of_Z 50.
Definition f55 : float := Eval vm_compute in of_Z 55.
Definition f60 : float := Eval vm_compute in of_Z 60.
Definition f65 : float := Eval vm_compute in of_Z 65.
Definition f_neg1 : float := Eval vm_compute in of_Z (-1).

Definition ex_feed : string -> string -> quotes :=
  fun _ sym => [(sym, {| quote_last := Some f60; quote_ticks := None |})].

Definition ex_cmd (msg oid : string) (price : float) : cmd_dict :=
  {| cmd_msg := msg; cmd_price := price; cmd_symbol := "X";
     cmd_brokers := ["B"]; cmd_oid := oid;
     cmd_name := None; cmd_index := None; cmd_trigger_price := None |}.

Definition ex_o1 : cmd_dict := ex_cmd "alert" "o1" f50.
Definition ex_o2 : cmd_dict := ex_cmd "alert" "o2" f55.
Definition ex_cancel : cmd_dict := ex_cmd "cancel" "o1" f50.

(** The actor after the two alerts. *)
Definition ex_actor : actor :=
  snd (stream_and_route ex_feed [ex_o1; ex_o2] init).

Definition ex_tick (price : float) : tick := {| tick_price := Some price |}.

(** A stream of one batch quoting "X" at 65, 55, -1, 48 and 47. *)
Definition ex_stream : list (Z * quotes) :=
  [(10%Z, [("X", {| quote_last := Some f47;
                    quote_ticks := Some [ex_tick f65; ex_tick f55;
                                         ex_tick f_neg1;
                                         ex_tick f48; ex_tick f47] |})])].

(** The first alert, a batch quoting "X" at 65, then the second alert. *)
Definition ex_trace : list input :=
  [Command ex_o1;
   Quotes "B" "X" 10 [("X", {| quote_last := Some f65;
                               quote_ticks := Some [ex_tick f65] |})];
   Command ex_o2].

Definition ex_traced : actor := snd (run ex_feed ex_trace init).

(** ** The client side: [OrderBook.alert] and the command channel *)

(** What [alert] reads of its [Symbol]: [symbol.key] and [symbol.brokers]. *)
Record Symbol : Type := {
  sym_key : string;
  sym_brokers : list string
}.

(** The UI actor: the book [get_orders()] returns and the buffer of
    [trio.open_memory_channel(100)], oldest command first. *)
Record ui_actor : Type := {
  _orders : OrderBook;
  _to_ems : list cmd_dict
}.

Definition max_buffer_size : nat := 100.

(** How a non-blocking send ends. *)
Inductive nowait : Type :=
  | Done
  | WouldBlock.

(** [chan.send_nowait(cmd)]: the buffer takes the command unless it is
    full. *)
Definition send_nowait (cmd : cmd_dict) (buf : list cmd_dict)
  : nowait * list cmd_dict :=
  if Nat.ltb (length buf) max_buffer_size then (Done, buf ++ [cmd])
  else (WouldBlock, buf).

(** The dict [alert] builds. *)
Definition alert_cmd (uuid : string) (symbol : Symbol) (price : float)
  : cmd_dict :=
  {| cmd_msg := "alert"; cmd_price := price; cmd_symbol := sym_key symbol;
     cmd_brokers := sym_brokers symbol; cmd_oid := uuid;
     cmd_name := None; cmd_index := None; cmd_trigger_price := None |}.

Definition alert (uuid : string) (symbol : Symbol) (price : float)
    (ui : ui_actor) : nowait * ui_actor :=
  let cmd := alert_cmd uuid symbol price in
  let self :=
    {| _sent_orders := <[uuid := cmd]> (_sent_orders (_orders ui));
       _confirmed_orders := _confirmed_orders (_orders ui) |} in
  let '(r, buf) := send_nowait cmd (_to_ems ui) in
  (r, {| _orders := self; _to_ems := buf |}).

(** Calls of [alert] one after the other, each with its own outcome. *)
Fixpoint alerts (reqs : list (string * Symbol * float)) (ui : ui_actor)
  : list nowait * ui_actor :=
  match reqs with
  | [] => ([], ui)
  | (uuid, symbol, price) :: reqs' =>
      let '(r, ui1) := alert uuid symbol price ui in
      let '(rs, ui2) := alerts reqs' ui1 in
      (r :: rs, ui2)
  end.

(** [send_order_cmds]: the commands buffered so far leave the channel in
    the order they entered it. *)
Definition send_order_cmds (ui : ui_actor) : list cmd_dict * ui_actor :=
  (_to_ems ui, {| _orders := _orders ui; _to_ems := [] |}).

(** ** The client side: the loop of [spawn_router_stream_alerts] *)

(** The calls the loop makes on [order_mode] and on the notifier. *)
Inductive ui_call : Type :=
  | commit_line (oid : string)
  | arrows_add (oid : string) (index : Z) (price : float) (pointing : string)
  | remove_line (uuid : string)
  | notify_send (alert : wire_msg).

Inductive ui_exn : Type :=
  | MissingKey
  | CalledProcessError.

(** [alert['msg']] *)
Definition wire_msg_type (alert : wire_msg) : string :=
  match alert with
  | CmdMsg cmd => cmd_msg cmd
  | AckMsg _ => "ack"
  end.

Section Alerts.

(** Whether [trio.run_process] returns for the notification of a message. *)
Variable run_process : wire_msg -> bool.

(** The body of [async for alert in stream]: the exception it ends with,
    if any, and the calls made up to then. *)
Definition spawn_router_stream_alerts_body (alert : wire_msg)
  : option ui_exn * list ui_call :=
  let oid := wire_oid alert in
  let msg_type := wire_msg_type alert in
  if String.eqb msg_type "ack" then (None, [commit_line oid])
  else
    match alert with
    | AckMsg _ => (Some MissingKey, [])
    | CmdMsg cmd =>
        match cmd_index cmd, cmd_name cmd with
        | Some index, Some name =>
            let calls :=
              [arrows_add oid index (cmd_price cmd)
                 (if String.eqb name "up" then "up" else "down");
               remove_line oid; notify_send alert] in
            if run_process alert then (None, calls)
            else (Some CalledProcessError, calls)
        | _, _ => (Some MissingKey, [])
        end
    end.

Fixpoint spawn_router_stream_alerts (stream : list wire_msg)
  : option ui_exn * list ui_call :=
  match stream with
  | [] => (None, [])
  | alert :: stream' =>
      match spawn_router_stream_alerts_body alert with
      | (None, calls) =>
          let '(r, calls') := spawn_router_stream_alerts stream' in
          (r, calls ++ calls')
      | (Some e, calls) => (Some e, calls)
      end
  end.

End Alerts.

(** ** More vocabulary *)

(** The closure stamps of the pending orders of every key are distinct
    and below the allocation counter. *)
Definition stamps_ok (st : actor) : Prop :=
  forall k,
    NoDup (map p_pred_obj (bucket st k))
    /\ Forall (fun e => p_pred_obj e < next_obj st) (bucket st k).

(** The price a tick writes to [book.lasts], if it writes one. *)
Definition handled_price (t : tick) : option float :=
  match tick_price t with
  | Some price => if lt price zero then None else Some price
  | None => None
  end.

(** The prices a batch writes, in the order it writes them. *)
Definition handled_prices (qs : quotes) : list float :=
  flat_map (fun sq : string * quote =>
              omap handled_price (default [] (quote_ticks (snd sq)))) qs.

(** The commands of a list that the router files under [k]. *)
Definition filed_under (k : key) (cmds : list cmd_dict) : list cmd_dict :=
  List.filter (fun cmd => option_eqb key_eqb (cmd_key cmd) (Some k)) cmds.

(** The position of a float that is not a NaN in the order of the
    comparisons: class, then exponent, then mantissa. *)
Definition rank (x : float) : Z * Z * Z :=
  match x with
  | S754_zero _ => (0, 0, 0)%Z
  | S754_infinity false => (2, 0, 0)%Z
  | S754_infinity true => (-2, 0, 0)%Z
  | S754_nan => (0, 0, 0)%Z
  | S754_finite false m e => (1, e, Zpos m)%Z
  | S754_finite true m e => (-1, - e, Zneg m)%Z
  end.

Definition rank_compare (a b : Z * Z * Z) : comparison :=
  match (fst (fst a) ?= fst (fst b))%Z with
  | Eq =>
      match (snd (fst a) ?= snd (fst b))%Z with
      | Eq => (snd a ?= snd b)%Z
      | c => c
      end
  | c => c
  end.

(** A message the client loop can read every key of: an
    acknowledgement, or a command dict that has [index] and [name]. *)
Definition readable (m : wire_msg) : Prop :=
  match m with
  | AckMsg _ => True
  | CmdMsg cmd => is_Some (cmd_index cmd) /\ is_Some (cmd_name cmd)
  end.

(** The messages sent so far are readable, and a step only adds such. *)
Definition sends_readable (st st' : actor) : Prop :=
  exists new, sent st' = sent st ++ new /\ Forall readable new.

(** In a sequence of messages, every command dict comes after an
    acknowledgement of its oid. *)
Definition acked_first (ms : list wire_msg) : Prop :=
  forall l1 cmd l2,
    ms = l1 ++ CmdMsg cmd :: l2 -> AckMsg (cmd_oid cmd) ∈ l1.

(** Every pending order has been acknowledged. *)
Definition pending_acked (st : actor) : Prop :=
  forall k e, e ∈ bucket st k -> AckMsg (cmd_oid (p_cmd e)) ∈ sent st.

(** ** More of the worked example *)

(** An alert that names no broker. *)
Definition ex_no_broker : cmd_dict :=
  {| cmd_msg := "alert"; cmd_price := f50; cmd_symbol := "X";
     cmd_brokers := []; cmd_oid := "o3"; cmd_name := None;
     cmd_index := None; cmd_trigger_price := None |}.

(** An alert whose price is a NaN. *)
Definition ex_nan : cmd_dict := ex_cmd "alert" "o4" S754_nan.

(** An alert for a symbol the feed of "B" has no first quote for. *)
Definition ex_unquoted : cmd_dict :=
  {| cmd_msg := "alert"; cmd_price := f50; cmd_symbol := "Z";
     cmd_brokers := ["B"]; cmd_oid := "o5"; cmd_name := None;
     cmd_index := None; cmd_trigger_price := None |}.

(** A feed that quotes "X" at 60 and nothing else. *)
Definition ex_feed_x : string -> string -> quotes :=
  fun _ _ => [("X", {| quote_last := Some f60; quote_ticks := None |})].

(** * Properties *)

(** ** The monad *)

Lemma bind_ok {S A B} (m : M S A) (k : A -> M S B) st a st' :
  m st = (Ok a, st') -> bind m k st = k a st'.
Proof. intros H. unfold bind. rewrite H. reflexivity. Qed.

Lemma for_app {S A} (l1 l2 : list A) (body : A -> M S unit) st :
  for_ (l1 ++ l2) body st = (for_ l1 body ;; for_ l2 body) st.
Proof.
  revert st. induction l1 as [|x l1 IH]; intros st; simpl.
  - reflexivity.
  - unfold bind in *. destruct (body x st) as [[[]|e] st1].
    + apply IH.
    + reflexivity.
Qed.

(** A loop whose body returns exactly on the elements satisfying [P], and
    raises [e] on the others, returns exactly when all of them satisfy it. *)
Lemma for_outcome {S A} (P : A -> bool) (e : exn) (body : A -> M S unit) :
  forall l,
    (forall x st, x ∈ l ->
       fst (body x st) = if P x then Ok tt else Raise e) ->
    forall st, fst (for_ l body st) = if forallb P l then Ok tt else Raise e.
Proof.
  induction l as [|x l IH]; intros Hbody st; simpl.
  - reflexivity.
  - unfold bind. pose proof (Hbody x st (list_elem_of_here x l)) as Hx.
    destruct (body x st) as [[[]|e'] st1]; simpl in Hx.
    + destruct (P x); [|discriminate]. simpl. apply IH.
      intros y st' Hy. apply Hbody. apply list_elem_of_further. exact Hy.
    + destruct (P x); [discriminate|]. simpl. congruence.
Qed.

(** A reflexive and transitive relation between the state before and the
    state after, kept by the body, is kept by the loop. *)
Lemma for_rel {S A} (R : S -> S -> Prop) (body : A -> M S unit) :
  (forall st, R st st) ->
  (forall a b c, R a b -> R b c -> R a c) ->
  forall l,
    (forall x st, x ∈ l -> R st (snd (body x st))) ->
    forall st, R st (snd (for_ l body st)).
Proof.
  intros Hrefl Htrans. induction l as [|x l IH]; intros Hbody st; simpl.
  - apply Hrefl.
  - unfold bind. pose proof (Hbody x st (list_elem_of_here x l)) as Hx.
    destruct (body x st) as [[[]|e'] st1]; simpl in Hx.
    + apply (Htrans _ st1); [exact Hx|]. apply IH.
      intros y st' Hy. apply Hbody. apply list_elem_of_further. exact Hy.
    + exact Hx.
Qed.

(** ** Floats *)

Lemma SFcompare_antisym (a b : float) :
  SFcompare b a = option_map CompOpp (SFcompare a b).
Proof.
  destruct a as [sa|sa| |sa ma ea], b as [sb|sb| |sb mb eb]; simpl;
    try destruct sa; try destruct sb; try reflexivity.
  - rewrite (Z.compare_antisym eb ea).
    destruct (eb ?= ea)%Z; simpl; try reflexivity.
    rewrite (Pos.compare_cont_antisym ma mb Eq). reflexivity.
  - rewrite (Z.compare_antisym eb ea).
    destruct (eb ?= ea)%Z; simpl; try reflexivity.
    rewrite (Pos.compare_cont_antisym ma mb Eq). simpl. reflexivity.
Qed.

Lemma SFcompare_None (a b : float) :
  SFcompare a b = None -> is_nan a || is_nan b = true.
Proof.
  destruct a as [sa|sa| |sa ma ea], b as [sb|sb| |sb mb eb]; simpl;
    try destruct sa; try destruct sb; try reflexivity; discriminate.
Qed.

Lemma ge_le (a b : float) : ge a b = le b a.
Proof.
  unfold ge, le, SFleb. rewrite (SFcompare_antisym a b).
  destruct (SFcompare a b) as [[]|]; reflexivity.
Qed.

(** ** The alert predicate *)

(** C1, as the code has it: for a trigger price of 100 and a last price
    of 95 the direction is 'down' and the predicate is [price >= 100]; it
    fires at 101 and not at 99. *)
Theorem mk_check_100_95 :
  exists pred,
    mk_check (of_Z 100) (of_Z 95) = Some (pred, "down")
    /\ (forall price, pred price = ge price (of_Z 100))
    /\ pred (of_Z 101) = true
    /\ pred (of_Z 99) = false.
Proof.
  eexists. split; [reflexivity|].
  split; [intros price; reflexivity|].
  split; reflexivity.
Qed.

(** C1, as the specification words it, does not hold: no predicate with
    direction 'up' that fires at 99 and not at 101 is returned. *)
Lemma mk_check_100_95_not_up :
  ~ (exists pred,
       mk_check (of_Z 100) (of_Z 95) = Some (pred, "up")
       /\ pred (of_Z 99) = true
       /\ pred (of_Z 101) = false).
Proof.
  intros (pred & H & _). unfold mk_check in H.
  change (ge (of_Z 100) (of_Z 95)) with true in H. discriminate H.
Qed.

(** C3: when [trigger_price >= known_last] the result is the predicate
    [price >= trigger_price] with direction 'down'; when
    [trigger_price < known_last] it is [price <= trigger_price] with
    direction 'up'. *)
Theorem mk_check_branches (trigger_price known_last : float) :
  (ge trigger_price known_last = true ->
   exists pred,
     mk_check trigger_price known_last = Some (pred, "down")
     /\ forall price, pred price = ge price trigger_price)
  /\
  (lt trigger_price known_last = true ->
   exists pred,
     mk_check trigger_price known_last = Some (pred, "up")
     /\ forall price, pred price = le price trigger_price).
Proof.
  unfold mk_check. split; intros H.
  - rewrite H. eexists. split; [reflexivity|]. intros price. reflexivity.
  - assert (Hge : ge trigger_price known_last = false).
    { revert H. unfold lt, SFltb, ge.
      destruct (SFcompare trigger_price known_last) as [[]|];
        intros; congruence. }
    assert (Hle : le trigger_price known_last = true).
    { revert H. unfold lt, SFltb, le, SFleb.
      destruct (SFcompare trigger_price known_last) as [[]|];
        intros; congruence. }
    rewrite Hge, Hle. eexists. split; [reflexivity|].
    intros price. reflexivity.
Qed.

Lemma mk_check_branches_witness :
  (exists pred,
     mk_check (of_Z 70) (of_Z 60) = Some (pred, "down")
     /\ forall price, pred price = ge price (of_Z 70))
  /\
  (exists pred,
     mk_check (of_Z 50) (of_Z 60) = Some (pred, "up")
     /\ forall price, pred price = le price (of_Z 50)).
Proof.
  split.
  - apply (proj1 (mk_check_branches (of_Z 70) (of_Z 60))). reflexivity.
  - apply (proj2 (mk_check_branches (of_Z 50) (of_Z 60))). reflexivity.
Defined.

(** C4: the predicate returned for [(trigger_price, known_last)] is true
    at [known_last] exactly when [trigger_price == known_last]; a pair
    for which nothing is returned has a NaN in it. *)
Theorem mk_check_at_known_last (trigger_price known_last : float) :
  match mk_check trigger_price known_last with
  | Some (pred, _) => pred known_last = eq trigger_price known_last
  | None => is_nan trigger_price || is_nan known_last = true
  end.
Proof.
  unfold mk_check.
  destruct (ge trigger_price known_last) eqn:Hge.
  - rewrite ge_le. revert Hge. unfold ge, le, SFleb, eq, SFeqb.
    destruct (SFcompare trigger_price known_last) as [[]|];
      intros; congruence.
  - destruct (le trigger_price known_last) eqn:Hle.
    + revert Hge Hle. rewrite (ge_le trigger_price known_last).
      unfold le at 3. unfold eq, SFeqb, le, SFleb.
      rewrite (SFcompare_antisym trigger_price known_last).
      destruct (SFcompare trigger_price known_last) as [[]|]; simpl;
        intros; congruence.
    + apply SFcompare_None. revert Hge Hle. unfold ge, le, SFleb.
      destruct (SFcompare trigger_price known_last) as [[]|];
        intros; congruence.
Qed.

(** ** The client-side book *)

(** C10: [on_fill] returns exactly when the oid is in [_sent_orders]; it
    then stores the sent command under the oid in [_confirmed_orders] and
    leaves [_sent_orders] as it is; otherwise it raises [KeyError] and the
    book is unchanged. *)
Theorem on_fill_spec (uuid : string) (self : OrderBook) :
  match _sent_orders self !! uuid with
  | Some cmd =>
      on_fill uuid self =
        (Ok tt, {| _sent_orders := _sent_orders self;
                   _confirmed_orders := <[uuid := cmd]> (_confirmed_orders self) |})
  | None => on_fill uuid self = (Raise KeyError, self)
  end.
Proof.
  unfold on_fill, bind, subscript, modify, ret, raise.
  destruct (_sent_orders self !! uuid); reflexivity.
Qed.

(** ** Removal from the live list *)

Lemma pending_eqb_oid (a b : pending) :
  pending_eqb a b = true -> p_oid a = p_oid b.
Proof.
  unfold pending_eqb. intros H.
  apply andb_prop in H as [H _]. apply andb_prop in H as [H _].
  apply andb_prop in H as [H _]. apply String.eqb_eq. exact H.
Qed.

Lemma pending_eqb_triggered (e : pending) (cmd : cmd_dict) :
  pending_eqb e
    {| p_oid := p_oid e; p_pred := p_pred e; p_pred_obj := p_pred_obj e;
       p_name := p_name e; p_cmd := cmd; p_cmd_obj := p_cmd_obj e |} = true.
Proof.
  unfold pending_eqb. simpl.
  rewrite !String.eqb_refl, !Nat.eqb_refl. reflexivity.
Qed.

Lemma count_oid_app o l1 l2 :
  count_oid o (l1 ++ l2) = count_oid o l1 + count_oid o l2.
Proof. unfold count_oid. rewrite List.filter_app, length_app. reflexivity. Qed.

Lemma count_oid_cons o e l :
  count_oid o (e :: l)
  = (if String.eqb (p_oid e) o then 1 else 0) + count_oid o l.
Proof. unfold count_oid. simpl. destruct (String.eqb (p_oid e) o); reflexivity. Qed.

(** Removing a tuple equal to [e] from a live list that still holds [e]
    succeeds, leaves what follows [e] in place, and takes away one
    order with the oid of [e]. *)
Lemma list_remove_live (x e : pending) (rest : list pending) :
  pending_eqb e x = true ->
  forall pre,
  exists pre',
    list_remove x (pre ++ e :: rest) = Some (pre' ++ rest)
    /\ (forall o, count_oid o pre' = count_oid o pre)
    /\ (forall y, y ∈ pre' -> y ∈ pre ++ [e]).
Proof.
  intros He. induction pre as [|y pre IH]; simpl.
  - exists []. rewrite He. split; [reflexivity|]. split; [reflexivity|].
    intros y Hy. inversion Hy.
  - destruct (pending_eqb y x) eqn:Hy.
    + exists (pre ++ [e]). rewrite <- app_assoc. split; [reflexivity|]. split.
      * intros o. rewrite count_oid_app, !count_oid_cons.
        unfold count_oid at 2. simpl.
        rewrite (pending_eqb_oid _ _ Hy), <- (pending_eqb_oid _ _ He). lia.
      * intros z Hz. apply list_elem_of_further. exact Hz.
    + destruct IH as (pre' & Hrm & Hcnt & Hin).
      exists (y :: pre'). rewrite Hrm. split; [reflexivity|]. split.
      * intros o. rewrite !count_oid_cons, Hcnt. reflexivity.
      * intros z Hz. apply elem_of_cons in Hz as [->|Hz].
        -- apply list_elem_of_here.
        -- apply list_elem_of_further. apply Hin. exact Hz.
Qed.

(** ** One tick over the snapshot *)

Lemma after_snapshot_id st k l :
  orders (book st) !! k = Some l -> after_snapshot st k l [] = st.
Proof.
  intros H. destruct st as [[o la] s n c]. unfold after_snapshot. simpl in *.
  rewrite (insert_id o k l H), app_nil_r. reflexivity.
Qed.

Lemma after_snapshot_twice st k l1 n1 l2 n2 :
  after_snapshot (after_snapshot st k l1 n1) k l2 n2
  = after_snapshot st k l2 (n1 ++ n2).
Proof.
  unfold after_snapshot. simpl.
  rewrite insert_insert_eq, app_assoc. reflexivity.
Qed.

Section Snapshot.

Variables (broker symbol : string) (shm_last : Z).
Variables (sym : string) (price : float).

(** An order of the snapshot that triggers while it is still in the live
    list: its message is sent and the removal succeeds. *)
Lemma exec_order_fires e pre rest st :
  p_pred e price = true ->
  orders (book st) !! (broker, sym) = Some (pre ++ e :: rest) ->
  exists pre',
    exec_order broker shm_last sym price e st
    = (Ok tt, after_snapshot st (broker, sym) (pre' ++ rest)
                [CmdMsg (trigger_cmd e shm_last price)])
    /\ (forall o, count_oid o pre' = count_oid o pre)
    /\ (forall y, y ∈ pre' -> y ∈ pre ++ [e]).
Proof.
  intros Hfire Hlive. unfold exec_order. rewrite Hfire.
  destruct (list_remove_live _ e rest
              (pending_eqb_triggered e (trigger_cmd e shm_last price)) pre)
    as (pre' & Hrm & Hcnt & Hin).
  exists pre'. split; [|split; assumption].
  unfold bind, send_yield, modify, execs_remove, get_book, gets, bind. simpl.
  rewrite Hlive, Hrm. reflexivity.
Qed.

(** The loop over the snapshot [rest], the live list being [pre ++ rest]:
    it returns, sends the messages of the orders that trigger in the
    order of the snapshot, and removes one order per message. *)
Lemma exec_order_loop :
  forall rest pre st,
    orders (book st) !! (broker, sym) = Some (pre ++ rest) ->
    exists l',
      for_ rest (exec_order broker shm_last sym price) st
      = (Ok tt, after_snapshot st (broker, sym) l'
                  (triggers_of shm_last price rest))
      /\ (forall o,
            count_oid o l'
            + count_oid o (List.filter (fun e => p_pred e price) rest)
            = count_oid o (pre ++ rest))
      /\ (forall y, y ∈ l' -> y ∈ pre ++ rest).
Proof.
  induction rest as [|e rest IH]; intros pre st Hlive.
  - exists pre. rewrite app_nil_r in *. simpl. split; [|split].
    + unfold ret, triggers_of. simpl. rewrite after_snapshot_id; auto.
    + intros o. unfold count_oid at 2. simpl. lia.
    + auto.
  - simpl. destruct (p_pred e price) eqn:Hfire.
    + destruct (exec_order_fires e pre rest st Hfire Hlive)
        as (pre1 & Hstep & Hcnt1 & Hin1).
      rewrite (bind_ok _ _ _ _ _ Hstep).
      destruct (IH pre1 (after_snapshot st (broker, sym) (pre1 ++ rest)
                  [CmdMsg (trigger_cmd e shm_last price)]))
        as (l' & Hloop & Hcnt & Hin).
      { simpl. apply lookup_insert_eq. }
      exists l'. split; [|split].
      * rewrite Hloop, after_snapshot_twice. unfold triggers_of. simpl.
        rewrite Hfire. reflexivity.
      * intros o. specialize (Hcnt o). specialize (Hcnt1 o).
        rewrite count_oid_app in *. rewrite !count_oid_cons. lia.
      * intros y Hy. apply Hin in Hy. apply elem_of_app in Hy as [Hy|Hy].
        -- apply Hin1 in Hy. apply elem_of_app in Hy as [Hy|Hy].
           ++ apply elem_of_app. left. exact Hy.
           ++ apply list_elem_of_singleton in Hy as ->.
              apply elem_of_app. right. apply list_elem_of_here.
        -- apply elem_of_app. right. apply list_elem_of_further. exact Hy.
    + assert (Hstep : exec_order broker shm_last sym price e st = (Ok tt, st)).
      { unfold exec_order. rewrite Hfire. reflexivity. }
      rewrite (bind_ok _ _ _ _ _ Hstep).
      destruct (IH (pre ++ [e]) st) as (l' & Hloop & Hcnt & Hin).
      { rewrite <- app_assoc. exact Hlive. }
      exists l'. split; [|split].
      * rewrite Hloop. unfold triggers_of. simpl. rewrite Hfire. reflexivity.
      * intros o. specialize (Hcnt o). rewrite <- app_assoc in Hcnt.
        exact Hcnt.
      * intros y Hy. apply Hin in Hy. rewrite <- app_assoc in Hy. exact Hy.
Qed.

End Snapshot.

(** One tick that carries a price that is not negative: the step returns;
    what it sends and what it leaves in the book. *)
Lemma exec_tick_spec broker symbol shm_last sym t price st :
  tick_price t = Some price ->
  lt price zero = false ->
  exists st',
    exec_tick broker symbol shm_last sym t st = (Ok tt, st')
    /\ sent st' = sent st ++ triggers_of shm_last price (bucket st (broker, sym))
    /\ lasts (book st') = <[(broker, symbol) := price]> (lasts (book st))
    /\ nursery st' = nursery st
    /\ next_obj st' = next_obj st
    /\ (forall k', k' ≠ (broker, sym) ->
          orders (book st') !! k' = orders (book st) !! k')
    /\ (forall o,
          count_oid o (bucket st' (broker, sym))
          + count_oid o (List.filter (fun e => p_pred e price)
                                     (bucket st (broker, sym)))
          = count_oid o (bucket st (broker, sym)))
    /\ (forall y, y ∈ bucket st' (broker, sym) -> y ∈ bucket st (broker, sym)).
Proof.
  intros Hp Hlt. unfold exec_tick. rewrite Hp, Hlt.
  unfold bind at 1. unfold set_last at 1, modify at 1.
  unfold bind at 1. unfold get_book at 1, gets at 1. cbn [book orders].
  unfold bucket.
  destruct (orders (book st) !! (broker, sym)) as [l|] eqn:Hl; cbn [default].
  - set (st0 := {| book := _; sent := sent st |}).
    assert (Hloop :
      (match l with
       | [] => ret tt
       | _ :: _ => for_ l (exec_order broker shm_last sym price)
       end) st0 = for_ l (exec_order broker shm_last sym price) st0).
    { destruct l; reflexivity. }
    rewrite Hloop.
    destruct (exec_order_loop broker shm_last sym price l [] st0 Hl)
      as (l' & Hrun & Hcnt & Hin).
    eexists. split; [exact Hrun|]. cbn.
    rewrite lookup_insert_eq. cbn.
    repeat split; auto.
    intros k' Hk'. rewrite lookup_insert_ne by congruence. reflexivity.
  - eexists. split; [reflexivity|]. cbn. rewrite Hl. cbn.
    rewrite app_nil_r. repeat split; auto.
Qed.

(** ** Ticks that are skipped, ticks that raise *)

Lemma exec_tick_negative broker symbol shm_last sym t price st :
  tick_price t = Some price ->
  lt price zero = true ->
  exec_tick broker symbol shm_last sym t st = (Ok tt, st).
Proof. intros Hp Hlt. unfold exec_tick. rewrite Hp, Hlt. reflexivity. Qed.

(** C8: a tick whose price is negative is skipped without an error: the
    step returns with the whole state as it was (no last price written, no
    order removed, nothing sent), and a run of ticks that contains it
    behaves as the run without it. *)
Theorem negative_tick_skipped broker symbol shm_last sym t price :
  tick_price t = Some price ->
  lt price zero = true ->
  (forall st, exec_tick broker symbol shm_last sym t st = (Ok tt, st))
  /\ (forall before after st,
        for_ (before ++ t :: after) (exec_tick broker symbol shm_last sym) st
        = for_ (before ++ after) (exec_tick broker symbol shm_last sym) st).
Proof.
  intros Hp Hlt. split.
  - intros st. apply exec_tick_negative with price; assumption.
  - intros before after st.
    rewrite (for_app before (t :: after)), (for_app before after).
    unfold bind.
    destruct (for_ before _ st) as [[[]|e] st1]; [|reflexivity].
    cbn [for_]. unfold bind.
    rewrite (exec_tick_negative _ _ _ _ _ _ st1 Hp Hlt). reflexivity.
Qed.

Lemma negative_tick_skipped_witness :
  (forall st,
     exec_tick "ib" "X" 10 "X" {| tick_price := Some (of_Z (-1)) |} st
     = (Ok tt, st))
  /\ (forall before after st,
        for_ (before ++ {| tick_price := Some (of_Z (-1)) |} :: after)
             (exec_tick "ib" "X" 10 "X") st
        = for_ (before ++ after) (exec_tick "ib" "X" 10 "X") st).
Proof.
  apply (negative_tick_skipped "ib" "X" 10 "X"
           {| tick_price := Some (of_Z (-1)) |} (of_Z (-1))).
  - reflexivity.
  - vm_compute. reflexivity.
Defined.

Lemma exec_tick_outcome broker symbol shm_last sym t st :
  fst (exec_tick broker symbol shm_last sym t st)
  = if has_price t then Ok tt else Raise TypeError.
Proof.
  unfold has_price. destruct (tick_price t) as [price|] eqn:Hp.
  - destruct (lt price zero) eqn:Hlt.
    + rewrite (exec_tick_negative _ _ _ _ _ _ st Hp Hlt). reflexivity.
    + destruct (exec_tick_spec broker symbol shm_last sym t price st Hp Hlt)
        as (st' & Hrun & _).
      rewrite Hrun. reflexivity.
  - unfold exec_tick. rewrite Hp. reflexivity.
Qed.

(** C9: the handling of a quote batch returns exactly when every tick of
    the batch carries a price; a batch with a tick that has none makes it
    raise [TypeError] (the guard compares [None] with 0). *)
Theorem exec_quotes_outcome broker symbol shm_last (qs : quotes) st :
  fst (exec_quotes broker symbol shm_last qs st)
  = if all_priced qs then Ok tt else Raise TypeError.
Proof.
  unfold exec_quotes, all_priced. apply for_outcome.
  intros [sym q] st' _. simpl. apply for_outcome.
  intros t st'' _. apply exec_tick_outcome.
Qed.

(** ** An order triggers once *)

Lemma key_eqb_eq (a b : key) : key_eqb a b = true <-> a = b.
Proof.
  destruct a as [a1 a2], b as [b1 b2]. unfold key_eqb. simpl.
  rewrite andb_true_iff, !String.eqb_eq. split.
  - intros [-> ->]. reflexivity.
  - intros H. injection H as -> ->. split; reflexivity.
Qed.

Lemma key_eqb_refl (a : key) : key_eqb a a = true.
Proof. apply key_eqb_eq. reflexivity. Qed.

Lemma key_eqb_neq (a b : key) : a ≠ b -> key_eqb a b = false.
Proof.
  intros H. destruct (key_eqb a b) eqn:E; [|reflexivity].
  apply key_eqb_eq in E. contradiction.
Qed.

Lemma count_triggers_app k o l1 l2 :
  count_triggers k o (l1 ++ l2) = count_triggers k o l1 + count_triggers k o l2.
Proof.
  unfold count_triggers. rewrite List.filter_app, length_app. reflexivity.
Qed.

Lemma bucket_elem st k e :
  e ∈ bucket st k -> exists l, orders (book st) !! k = Some l /\ e ∈ l.
Proof.
  unfold bucket. destruct (orders (book st) !! k) as [l|]; simpl.
  - intros H. exists l. split; [reflexivity|exact H].
  - intros H. inversion H.
Qed.

Lemma bucket_lookup st k l :
  orders (book st) !! k = Some l -> bucket st k = l.
Proof. intros H. unfold bucket. rewrite H. reflexivity. Qed.

Lemma trigger_for_wf kt k o e shm_last price :
  pending_wf kt e ->
  is_trigger_for k o (CmdMsg (trigger_cmd e shm_last price))
  = String.eqb (p_oid e) o && key_eqb kt k.
Proof.
  intros [Hoid Hkey]. unfold is_trigger_for.
  change (cmd_key (trigger_cmd e shm_last price)) with (cmd_key (p_cmd e)).
  change (cmd_oid (trigger_cmd e shm_last price)) with (cmd_oid (p_cmd e)).
  rewrite Hkey, <- Hoid. reflexivity.
Qed.

Lemma count_triggers_cons k o m ms :
  count_triggers k o (m :: ms)
  = (if is_trigger_for k o m then 1 else 0) + count_triggers k o ms.
Proof.
  unfold count_triggers. cbn [List.filter].
  destruct (is_trigger_for k o m); reflexivity.
Qed.

Lemma triggers_of_cons shm_last price e l :
  triggers_of shm_last price (e :: l)
  = if p_pred e price
    then CmdMsg (trigger_cmd e shm_last price) :: triggers_of shm_last price l
    else triggers_of shm_last price l.
Proof.
  unfold triggers_of. cbn [List.filter]. destruct (p_pred e price); reflexivity.
Qed.

Lemma count_triggers_of kt k o shm_last price l :
  (forall e, e ∈ l -> pending_wf kt e) ->
  count_triggers k o (triggers_of shm_last price l)
  = if key_eqb kt k
    then count_oid o (List.filter (fun e => p_pred e price) l)
    else 0.
Proof.
  induction l as [|e l IH]; intros Hwf.
  - destruct (key_eqb kt k); reflexivity.
  - assert (IH' := IH (fun x Hx => Hwf x (list_elem_of_further _ _ _ Hx))).
    assert (He := Hwf e (list_elem_of_here _ _)).
    rewrite triggers_of_cons. cbn [List.filter].
    destruct (p_pred e price); [|exact IH'].
    rewrite count_triggers_cons, IH'.
    rewrite (trigger_for_wf kt k o e shm_last price He).
    destruct (key_eqb kt k).
    + rewrite andb_true_r, count_oid_cons. reflexivity.
    + rewrite andb_false_r. reflexivity.
Qed.

Lemma triggers_of_keyed (K : key -> Prop) kt shm_last price l :
  K kt ->
  (forall e, e ∈ l -> pending_wf kt e) ->
  Forall (fun m => exists cmd k',
            m = CmdMsg cmd /\ cmd_key cmd = Some k' /\ K k')
         (triggers_of shm_last price l).
Proof.
  intros HK. induction l as [|e l IH]; intros Hwf.
  - constructor.
  - assert (IH' := IH (fun x Hx => Hwf x (list_elem_of_further _ _ _ Hx))).
    rewrite triggers_of_cons. destruct (p_pred e price); [|exact IH'].
    constructor; [|exact IH'].
    exists (trigger_cmd e shm_last price), kt. split; [reflexivity|].
    split; [|exact HK]. exact (proj2 (Hwf e (list_elem_of_here _ _))).
Qed.

Lemma fire_rel_refl K k o st : fire_rel K k o st st.
Proof.
  intros Hwf. split; [exact Hwf|]. exists []. rewrite app_nil_r.
  split; [reflexivity|]. split; [reflexivity|]. constructor.
Qed.

Lemma fire_rel_trans K k o a b c :
  fire_rel K k o a b -> fire_rel K k o b c -> fire_rel K k o a c.
Proof.
  intros Hab Hbc Hwf.
  destruct (Hab Hwf) as (Hwfb & n1 & Hs1 & Hc1 & Hf1).
  destruct (Hbc Hwfb) as (Hwfc & n2 & Hs2 & Hc2 & Hf2).
  split; [exact Hwfc|]. exists (n1 ++ n2). split; [|split].
  - rewrite Hs2, Hs1, app_assoc. reflexivity.
  - rewrite count_triggers_app. lia.
  - apply Forall_app. split; assumption.
Qed.

Lemma exec_tick_fire_rel (K : key -> Prop) k o broker symbol shm_last sym t st :
  K (broker, sym) ->
  fire_rel K k o st (snd (exec_tick broker symbol shm_last sym t st)).
Proof.
  intros HK. destruct (tick_price t) as [price|] eqn:Hp.
  - destruct (lt price zero) eqn:Hlt.
    + rewrite (exec_tick_negative _ _ _ _ _ _ st Hp Hlt). apply fire_rel_refl.
    + destruct (exec_tick_spec broker symbol shm_last sym t price st Hp Hlt)
        as (st' & Hrun & Hsent & _ & _ & _ & Hother & Hcnt & Hin).
      rewrite Hrun. cbn [snd]. intros Hwf.
      assert (Hwfb : forall e, e ∈ bucket st (broker, sym) ->
                               pending_wf (broker, sym) e).
      { intros e He. apply bucket_elem in He as (l & Hl & He).
        exact (Hwf _ _ _ Hl He). }
      split.
      * intros k1 l e Hl He. destruct (decide (k1 = (broker, sym))) as [->|Hne].
        -- rewrite <- (bucket_lookup _ _ _ Hl) in He. apply Hwfb, Hin, He.
        -- rewrite (Hother k1 Hne) in Hl. exact (Hwf _ _ _ Hl He).
      * exists (triggers_of shm_last price (bucket st (broker, sym))).
        split; [exact Hsent|]. split.
        -- rewrite (count_triggers_of (broker, sym) k o _ _ _ Hwfb).
           destruct (key_eqb (broker, sym) k) eqn:E.
           ++ apply key_eqb_eq in E. subst k. rewrite Nat.add_comm. apply Hcnt.
           ++ assert (Hne : k ≠ (broker, sym)).
              { intros ->. rewrite key_eqb_refl in E. discriminate E. }
              unfold bucket. rewrite (Hother k Hne). reflexivity.
        -- apply triggers_of_keyed with (broker, sym); assumption.
  - unfold exec_tick. rewrite Hp. apply fire_rel_refl.
Qed.

Lemma exec_quotes_fire_rel (K : key -> Prop) k o broker symbol shm_last
    (qs : quotes) st :
  (forall s q, (s, q) ∈ qs -> K (broker, s)) ->
  fire_rel K k o st (snd (exec_quotes broker symbol shm_last qs st)).
Proof.
  intros HK. unfold exec_quotes.
  apply (for_rel (fire_rel K k o)).
  - apply fire_rel_refl.
  - apply fire_rel_trans.
  - intros [s q] st' Hsq. cbn [exec_quote].
    apply (for_rel (fire_rel K k o)).
    + apply fire_rel_refl.
    + apply fire_rel_trans.
    + intros t st'' _. apply exec_tick_fire_rel. exact (HK s q Hsq).
Qed.

Lemma exec_orders_stream_fire_rel (K : key -> Prop) k o broker symbol
    (stream : list (Z * quotes)) st :
  (forall i qs s q, (i, qs) ∈ stream -> (s, q) ∈ qs -> K (broker, s)) ->
  fire_rel K k o st (snd (exec_orders_stream broker symbol stream st)).
Proof.
  intros HK. unfold exec_orders_stream.
  apply (for_rel (fire_rel K k o)).
  - apply fire_rel_refl.
  - apply fire_rel_trans.
  - intros [i qs] st' Hi. apply exec_quotes_fire_rel.
    intros s q Hsq. exact (HK i qs s q Hi Hsq).
Qed.

Lemma keyed_triggers k o (new : list wire_msg) :
  Forall (fun m => exists cmd k',
            m = CmdMsg cmd /\ cmd_key cmd = Some k' /\ k' = k) new ->
  List.filter (is_trigger_oid o) new = List.filter (is_trigger_for k o) new.
Proof.
  induction 1 as [|m new (cmd & k' & -> & Hkey & ->) _ IH]; [reflexivity|].
  cbn [List.filter]. rewrite IH.
  unfold is_trigger_oid, is_trigger_for. rewrite Hkey. cbn [option_eqb].
  rewrite key_eqb_refl, andb_true_r. reflexivity.
Qed.

(** C5: a feed task started on a book the router built, with at most one
    pending order of oid [o] under the key [(broker, sym)], sends at most
    one trigger message for that order over any stream of quote batches,
    and the order leaves the book with its message; when the stream only
    quotes [sym], that is at most one trigger message for the oid at all. *)
Theorem single_fire broker symbol sym o (stream : list (Z * quotes)) st :
  book_wf (book st) ->
  count_oid o (bucket st (broker, sym)) <= 1 ->
  exists new,
    sent (snd (exec_orders_stream broker symbol stream st)) = sent st ++ new
    /\ count_triggers (broker, sym) o new
       + count_oid o (bucket (snd (exec_orders_stream broker symbol stream st))
                             (broker, sym))
       = count_oid o (bucket st (broker, sym))
    /\ count_triggers (broker, sym) o new <= 1
    /\ ((forall i qs s q, (i, qs) ∈ stream -> (s, q) ∈ qs -> s = sym) ->
        length (List.filter (is_trigger_oid o) new) <= 1).
Proof.
  intros Hwf Hone.
  destruct (exec_orders_stream_fire_rel (fun _ => True) (broker, sym) o
              broker symbol stream st (fun _ _ _ _ _ _ => I) Hwf)
    as (_ & new & Hsent & Hcnt & _).
  exists new. split; [exact Hsent|]. split; [exact Hcnt|]. split; [lia|].
  intros Honly.
  destruct (exec_orders_stream_fire_rel (fun k' => k' = (broker, sym))
              (broker, sym) o broker symbol stream st) as (_ & new' & Hsent' & _ & Hkeyed).
  { intros i qs s q Hi Hsq. rewrite (Honly i qs s q Hi Hsq). reflexivity. }
  { exact Hwf. }
  assert (new' = new) as ->.
  { apply (app_inv_head (sent st)). rewrite <- Hsent, <- Hsent'. reflexivity. }
  rewrite (keyed_triggers (broker, sym) o new Hkeyed).
  fold (count_triggers (broker, sym) o new). lia.
Qed.

(** ** The router *)

(** A feed task that reaches [task_status.started] has entered the
    nursery and written the first last price of its key. *)
Lemma exec_orders_started_ok fq broker sym st st' :
  exec_orders_started fq broker sym st = (Ok tt, st') ->
  exists last,
    st' = {| book := {| orders := orders (book st);
                        lasts := <[(broker, sym) := last]> (lasts (book st)) |};
             sent := sent st;
             nursery := nursery st ++ [(broker, sym)];
             next_obj := next_obj st |}.
Proof.
  unfold exec_orders_started, bind, start_task, modify, subscript, set_last,
    ret, raise.
  destruct (quotes_get (fq broker sym) sym) as [q|]; [|discriminate].
  destruct (quote_last q) as [last|]; [|discriminate].
  intros H. injection H as <-. exists last. reflexivity.
Qed.

(** An accepted command: the last price it is checked against, the feed
    task it starts or not, the order it appends and the acknowledgement. *)
Lemma stream_and_route_body_ok fq cmd st st' :
  stream_and_route_body fq cmd st = (Ok tt, st') ->
  exists broker rest last pred name,
    cmd_brokers cmd = broker :: rest
    /\ lasts (book st') !! (broker, cmd_symbol cmd) = Some last
    /\ mk_check (cmd_price cmd) last = Some (pred, name)
    /\ match lasts (book st) !! (broker, cmd_symbol cmd) with
       | Some known =>
           known = last
           /\ lasts (book st') = lasts (book st)
           /\ nursery st' = nursery st
       | None =>
           lasts (book st')
           = <[(broker, cmd_symbol cmd) := last]> (lasts (book st))
           /\ nursery st' = nursery st ++ [(broker, cmd_symbol cmd)]
       end
    /\ orders (book st')
       = <[(broker, cmd_symbol cmd) :=
             bucket st (broker, cmd_symbol cmd)
             ++ [ {| p_oid := cmd_oid cmd; p_pred := pred;
                     p_pred_obj := S (next_obj st); p_name := name;
                     p_cmd := cmd; p_cmd_obj := next_obj st |} ] ]>
           (orders (book st))
    /\ sent st' = sent st ++ [AckMsg (cmd_oid cmd)]
    /\ next_obj st' = S (S (next_obj st)).
Proof.
  unfold stream_and_route_body. unfold bind at 1. unfold fresh at 1.
  unfold bind at 1.
  replace ((if String.eqb (cmd_msg cmd) "cancel" then ret tt else ret tt)
             {| book := book st; sent := sent st; nursery := nursery st;
                next_obj := S (next_obj st) |})
    with (Ok tt, {| book := book st; sent := sent st; nursery := nursery st;
                next_obj := S (next_obj st) |})
    by (destruct (String.eqb (cmd_msg cmd) "cancel"); reflexivity).
  destruct (cmd_brokers cmd) as [|broker rest] eqn:Hb; [discriminate|].
  unfold bind at 1. unfold get_book at 1, gets at 1. cbn [book].
  unfold bind at 1.
  set (k := (broker, cmd_symbol cmd)).
  assert (Htail : forall st1 last,
    lasts (book st1) !! k = Some last ->
    (b <- get_book;;
     last <- subscript (lasts b !! k);;
     match mk_check (cmd_price cmd) last with
     | Some (pred, name) =>
         pred_obj <- fresh;;
         set_orders
           (fun o : gmap key (list pending) =>
              <[k := default [] (o !! k) ++
                     [{| p_oid := cmd_oid cmd; p_pred := pred;
                         p_pred_obj := pred_obj; p_name := name;
                         p_cmd := cmd; p_cmd_obj := next_obj st |}]]> o);;
         send_yield (AckMsg (cmd_oid cmd))
     | None => raise TypeError
     end) st1 = (Ok tt, st') ->
    exists pred name,
      mk_check (cmd_price cmd) last = Some (pred, name)
      /\ lasts (book st') = lasts (book st1)
      /\ nursery st' = nursery st1
      /\ orders (book st')
         = <[k := bucket st1 k
                  ++ [ {| p_oid := cmd_oid cmd; p_pred := pred;
                          p_pred_obj := next_obj st1; p_name := name;
                          p_cmd := cmd; p_cmd_obj := next_obj st |} ] ]>
             (orders (book st1))
      /\ sent st' = sent st1 ++ [AckMsg (cmd_oid cmd)]
      /\ next_obj st' = S (next_obj st1)).
  { intros st1 last Hlast.
    unfold bind at 1. unfold get_book, gets. unfold bind at 1.
    rewrite Hlast. unfold subscript, ret.
    destruct (mk_check (cmd_price cmd) last) as [[pred name]|]; [|discriminate].
    unfold bind, fresh, set_orders, send_yield, modify. intros H.
    injection H as <-. exists pred, name. cbn. repeat split; reflexivity. }
  destruct (lasts (book st) !! k) as [known|] eqn:Hk.
  - unfold ret at 1. intros H.
    apply Htail with (last := known) in H; [|exact Hk].
    destruct H as (pred & name & Hmk & Hl & Hn & Ho & Hs & Hc).
    exists broker, rest, known, pred, name. cbn in Hl, Hn, Ho, Hs, Hc.
    split; [reflexivity|]. split; [rewrite Hl; exact Hk|].
    split; [exact Hmk|].
    split; [unfold k in Hk; rewrite Hk; repeat split; assumption|].
    split; [exact Ho|]. split; assumption.
  - destruct (exec_orders_started fq broker (cmd_symbol cmd) _)
      as [[[]|e] st1] eqn:Hstart; [|discriminate].
    apply exec_orders_started_ok in Hstart as (last & ->). cbn [book sent nursery next_obj].
    intros H.
    apply Htail with (last := last) in H; [|apply lookup_insert_eq].
    destruct H as (pred & name & Hmk & Hl & Hn & Ho & Hs & Hc).
    exists broker, rest, last, pred, name. cbn in Hl, Hn, Ho, Hs, Hc.
    split; [reflexivity|]. split; [rewrite Hl; apply lookup_insert_eq|].
    split; [exact Hmk|].
    split; [unfold k in Hk; rewrite Hk; split; assumption|].
    split; [exact Ho|]. split; assumption.
Qed.

Lemma for_ok_cons {S A} (x : A) (l : list A) (body : A -> M S unit) st st' :
  for_ (x :: l) body st = (Ok tt, st') ->
  exists st1, body x st = (Ok tt, st1) /\ for_ l body st1 = (Ok tt, st').
Proof.
  cbn [for_]. unfold bind. destruct (body x st) as [[[]|e] st1]; [|discriminate].
  intros H. exists st1. split; [reflexivity|exact H].
Qed.

Lemma for_ok_app {S A} (l1 l2 : list A) (body : A -> M S unit) st st' :
  for_ (l1 ++ l2) body st = (Ok tt, st') ->
  exists st1, for_ l1 body st = (Ok tt, st1) /\ for_ l2 body st1 = (Ok tt, st').
Proof.
  rewrite for_app. unfold bind.
  destruct (for_ l1 body st) as [[[]|e] st1]; [|discriminate].
  intros H. exists st1. split; [reflexivity|exact H].
Qed.

(** An accepted command goes to the end of the sequence of its key and
    leaves the other sequences alone. *)
Lemma stream_and_route_body_appends fq cmd st st' k :
  stream_and_route_body fq cmd st = (Ok tt, st') ->
  cmd_key cmd = Some k ->
  (exists E last,
     bucket st' k = bucket st k ++ [E]
     /\ p_cmd E = cmd
     /\ p_oid E = cmd_oid cmd
     /\ mk_check (cmd_price cmd) last = Some (p_pred E, p_name E))
  /\ (forall k', k' ≠ k -> bucket st' k' = bucket st k').
Proof.
  intros Hok Hkey.
  destruct (stream_and_route_body_ok fq cmd st st' Hok)
    as (broker & rest & last & pred & name & Hb & _ & Hmk & _ & Ho & _).
  unfold cmd_key in Hkey. rewrite Hb in Hkey. injection Hkey as <-.
  split.
  - eexists; exists last. unfold bucket at 1. rewrite Ho, lookup_insert_eq.
    cbn [default]. repeat split. exact Hmk.
  - intros k' Hne. unfold bucket. rewrite Ho, lookup_insert_ne by congruence.
    reflexivity.
Qed.

Lemma stream_and_route_body_extends fq cmd st st' k :
  stream_and_route_body fq cmd st = (Ok tt, st') ->
  exists ext, bucket st' k = bucket st k ++ ext.
Proof.
  intros Hok.
  destruct (stream_and_route_body_ok fq cmd st st' Hok)
    as (broker & rest & _ & _ & _ & Hb & _).
  assert (Hkey : cmd_key cmd = Some (broker, cmd_symbol cmd)).
  { unfold cmd_key. rewrite Hb. reflexivity. }
  destruct (stream_and_route_body_appends fq cmd st st' _ Hok Hkey)
    as ((E & _ & HE & _) & Hother).
  destruct (decide (k = (broker, cmd_symbol cmd))) as [->|Hne].
  - exists [E]. exact HE.
  - exists []. rewrite app_nil_r. apply Hother. exact Hne.
Qed.

Lemma stream_and_route_extends fq cmds k :
  forall st st',
    stream_and_route fq cmds st = (Ok tt, st') ->
    exists ext, bucket st' k = bucket st k ++ ext.
Proof.
  unfold stream_and_route. induction cmds as [|cmd cmds IH]; intros st st' H.
  - injection H as <-. exists []. rewrite app_nil_r. reflexivity.
  - apply for_ok_cons in H as (st1 & H1 & H2).
    destruct (stream_and_route_body_extends fq cmd st st1 k H1) as (e1 & He1).
    destruct (IH st1 st' H2) as (e2 & He2).
    exists (e1 ++ e2). rewrite He2, He1, app_assoc. reflexivity.
Qed.

(** ** Orders trigger in the order of insertion *)

Lemma triggers_of_app shm_last price l1 l2 :
  triggers_of shm_last price (l1 ++ l2)
  = triggers_of shm_last price l1 ++ triggers_of shm_last price l2.
Proof.
  unfold triggers_of. rewrite List.filter_app, map_app. reflexivity.
Qed.

(** A tick that two orders of a pending sequence both satisfy sends the
    message of the one that comes first in the sequence first. *)
Lemma exec_tick_in_sequence broker symbol shm_last sym t price st A B l1 l2 l3 :
  bucket st (broker, sym) = l1 ++ A :: l2 ++ B :: l3 ->
  tick_price t = Some price ->
  lt price zero = false ->
  p_pred A price = true ->
  p_pred B price = true ->
  exists st' m1 m2 m3,
    exec_tick broker symbol shm_last sym t st = (Ok tt, st')
    /\ sent st'
       = sent st ++ m1 ++ CmdMsg (trigger_cmd A shm_last price)
                    :: m2 ++ CmdMsg (trigger_cmd B shm_last price) :: m3.
Proof.
  intros Hl Hp Hlt HA HB.
  destruct (exec_tick_spec broker symbol shm_last sym t price st Hp Hlt)
    as (st' & Hrun & Hsent & _).
  exists st', (triggers_of shm_last price l1), (triggers_of shm_last price l2),
    (triggers_of shm_last price l3).
  split; [exact Hrun|]. rewrite Hsent, Hl.
  rewrite triggers_of_app, triggers_of_cons, HA.
  rewrite triggers_of_app, triggers_of_cons, HB. reflexivity.
Qed.

(** C6: two commands [cA] and [cB] for the same key, accepted by the
    router in that order (other commands may come between and after),
    leave two pending orders [A] and [B] under the key with [A] ahead of
    [B]; a tick that satisfies both predicates sends the trigger message of
    [A] before the trigger message of [B]. *)
Theorem triggers_follow_insertion fq cA cB cs1 cs2 st st' broker sym :
  cmd_key cA = Some (broker, sym) ->
  cmd_key cB = Some (broker, sym) ->
  stream_and_route fq (cA :: cs1 ++ cB :: cs2) st = (Ok tt, st') ->
  exists A B l1 l2 l3 lastA lastB,
    bucket st' (broker, sym) = l1 ++ A :: l2 ++ B :: l3
    /\ p_cmd A = cA /\ p_cmd B = cB
    /\ mk_check (cmd_price cA) lastA = Some (p_pred A, p_name A)
    /\ mk_check (cmd_price cB) lastB = Some (p_pred B, p_name B)
    /\ forall symbol shm_last t price,
         tick_price t = Some price ->
         lt price zero = false ->
         p_pred A price = true ->
         p_pred B price = true ->
         exists st'' m1 m2 m3,
           exec_tick broker symbol shm_last sym t st' = (Ok tt, st'')
           /\ sent st''
              = sent st' ++ m1 ++ CmdMsg (trigger_cmd A shm_last price)
                            :: m2 ++ CmdMsg (trigger_cmd B shm_last price) :: m3.
Proof.
  intros HkA HkB Hrun. unfold stream_and_route in Hrun.
  apply for_ok_cons in Hrun as (st1 & HA & Hrun).
  apply for_ok_app in Hrun as (st2 & Hcs1 & Hrun).
  apply for_ok_cons in Hrun as (st3 & HB & Hcs2).
  destruct (stream_and_route_body_appends fq cA st st1 _ HA HkA)
    as ((A & lastA & HbA & HcA & _ & HmA) & _).
  destruct (stream_and_route_extends fq cs1 (broker, sym) st1 st2 Hcs1)
    as (e1 & He1).
  destruct (stream_and_route_body_appends fq cB st2 st3 _ HB HkB)
    as ((B & lastB & HbB & HcB & _ & HmB) & _).
  destruct (stream_and_route_extends fq cs2 (broker, sym) st3 st' Hcs2)
    as (e2 & He2).
  assert (Hl : bucket st' (broker, sym)
               = bucket st (broker, sym) ++ A :: e1 ++ B :: e2).
  { rewrite He2, HbB, He1, HbA. rewrite <- !app_assoc. reflexivity. }
  exists A, B, (bucket st (broker, sym)), e1, e2, lastA, lastB.
  split; [exact Hl|]. split; [exact HcA|]. split; [exact HcB|].
  split; [exact HmA|]. split; [exact HmB|].
  intros symbol shm_last t price Hp Hlt HfA HfB.
  exact (exec_tick_in_sequence broker symbol shm_last sym t price st' A B
           _ _ _ Hl Hp Hlt HfA HfB).
Qed.

(** ** One feed task per key *)

(** A command whose key has a last price: the router starts nothing and
    checks the trigger price against that last price. *)
Lemma stream_and_route_body_known fq cmd st broker rest last :
  cmd_brokers cmd = broker :: rest ->
  lasts (book st) !! (broker, cmd_symbol cmd) = Some last ->
  stream_and_route_body fq cmd st
  = match mk_check (cmd_price cmd) last with
    | Some (pred, name) =>
        (Ok tt,
         {| book :=
              {| orders :=
                   <[(broker, cmd_symbol cmd) :=
                       bucket st (broker, cmd_symbol cmd)
                       ++ [ {| p_oid := cmd_oid cmd; p_pred := pred;
                               p_pred_obj := S (next_obj st); p_name := name;
                               p_cmd := cmd; p_cmd_obj := next_obj st |} ] ]>
                     (orders (book st));
                 lasts := lasts (book st) |};
            sent := sent st ++ [AckMsg (cmd_oid cmd)];
            nursery := nursery st;
            next_obj := S (S (next_obj st)) |})
    | None =>
        (Raise TypeError,
         {| book := book st; sent := sent st; nursery := nursery st;
            next_obj := S (next_obj st) |})
    end.
Proof.
  intros Hb Hlast. unfold stream_and_route_body. unfold bind at 1.
  unfold fresh at 1. unfold bind at 1.
  replace ((if String.eqb (cmd_msg cmd) "cancel" then ret tt else ret tt)
             {| book := book st; sent := sent st; nursery := nursery st;
                next_obj := S (next_obj st) |})
    with (Ok tt, {| book := book st; sent := sent st; nursery := nursery st;
                next_obj := S (next_obj st) |})
    by (destruct (String.eqb (cmd_msg cmd) "cancel"); reflexivity).
  rewrite Hb. unfold bind at 1. unfold get_book at 1, gets at 1. cbn [book].
  unfold bind at 1. rewrite Hlast. unfold ret at 1.
  unfold bind at 1. unfold get_book at 1, gets at 1. cbn [book].
  unfold bind at 1. rewrite Hlast. unfold subscript, ret at 1.
  destruct (mk_check (cmd_price cmd) last) as [[pred name]|]; reflexivity.
Qed.

Lemma count_tasks_app k l1 l2 :
  count_tasks k (l1 ++ l2) = count_tasks k l1 + count_tasks k l2.
Proof.
  unfold count_tasks. rewrite List.filter_app, length_app. reflexivity.
Qed.

Lemma count_tasks_existsb k tasks :
  existsb (key_eqb k) tasks = true -> 1 <= count_tasks k tasks.
Proof.
  unfold count_tasks. induction tasks as [|x tasks IH]; cbn [existsb List.filter].
  - discriminate.
  - destruct (key_eqb k x); cbn [length orb]; [lia|exact IH].
Qed.

Lemma feed_writes_refl wk st : feed_writes wk st st.
Proof. unfold feed_writes. auto. Qed.

Lemma feed_writes_trans wk a b c :
  feed_writes wk a b -> feed_writes wk b c -> feed_writes wk a c.
Proof.
  intros (Hn1 & Ho1 & Hs1) (Hn2 & Ho2 & Hs2). split; [congruence|]. split.
  - intros k Hk. rewrite (Ho2 k Hk). apply Ho1. exact Hk.
  - auto.
Qed.

Lemma exec_tick_feed_writes broker symbol shm_last sym t st :
  feed_writes (broker, symbol) st
    (snd (exec_tick broker symbol shm_last sym t st)).
Proof.
  destruct (tick_price t) as [price|] eqn:Hp.
  - destruct (lt price zero) eqn:Hlt.
    + rewrite (exec_tick_negative _ _ _ _ _ _ st Hp Hlt). apply feed_writes_refl.
    + destruct (exec_tick_spec broker symbol shm_last sym t price st Hp Hlt)
        as (st' & Hrun & _ & Hlasts & Hn & _).
      rewrite Hrun. cbn [snd]. split; [exact Hn|]. rewrite Hlasts. split.
      * intros k Hk. apply lookup_insert_ne. congruence.
      * intros _. rewrite lookup_insert_eq. eauto.
  - unfold exec_tick. rewrite Hp. apply feed_writes_refl.
Qed.

Lemma exec_quotes_feed_writes broker symbol shm_last (qs : quotes) st :
  feed_writes (broker, symbol) st
    (snd (exec_quotes broker symbol shm_last qs st)).
Proof.
  unfold exec_quotes. apply (for_rel (feed_writes (broker, symbol))).
  - apply feed_writes_refl.
  - apply feed_writes_trans.
  - intros [s q] st' _. cbn [exec_quote].
    apply (for_rel (feed_writes (broker, symbol))).
    + apply feed_writes_refl.
    + apply feed_writes_trans.
    + intros t st'' _. apply exec_tick_feed_writes.
Qed.

Lemma step_keeps fq i st st1 :
  step fq i st = (Ok tt, st1) ->
  tasks_match_lasts st ->
  tasks_match_lasts st1
  /\ (forall k, is_Some (lasts (book st) !! k) ->
                is_Some (lasts (book st1) !! k))
  /\ (forall cmd k, i = Command cmd -> cmd_key cmd = Some k ->
                    is_Some (lasts (book st1) !! k)).
Proof.
  intros Hstep Hinv. destruct i as [cmd|broker symbol shm_last qs].
  - cbn [step] in Hstep.
    destruct (stream_and_route_body_ok fq cmd st st1 Hstep)
      as (broker & rest & last & pred & name & Hb & Hlast & _ & Hcase & _).
    assert (Hkey : cmd_key cmd = Some (broker, cmd_symbol cmd)).
    { unfold cmd_key. rewrite Hb. reflexivity. }
    set (k0 := (broker, cmd_symbol cmd)) in *.
    assert (Hthird : forall cmd' k, Command cmd = Command cmd' ->
              cmd_key cmd' = Some k -> is_Some (lasts (book st1) !! k)).
    { intros cmd' k Heq Hk. injection Heq as Heq. subst cmd'.
      rewrite Hkey in Hk. injection Hk as <-. eauto. }
    destruct (lasts (book st) !! k0) as [known|] eqn:Hk0.
    + destruct Hcase as (_ & Hl & Hn). split; [|split; [|exact Hthird]].
      * intros k. rewrite Hn, Hl. apply Hinv.
      * intros k. rewrite Hl. auto.
    + destruct Hcase as (Hl & Hn). split; [|split; [|exact Hthird]].
      * intros k. rewrite Hn, Hl, count_tasks_app. specialize (Hinv k).
        unfold count_tasks at 2. cbn [List.filter].
        destruct (decide (k = k0)) as [->|Hne].
        -- rewrite key_eqb_refl, lookup_insert_eq. rewrite Hk0 in Hinv.
           rewrite Hinv. reflexivity.
        -- rewrite (key_eqb_neq _ _ Hne), lookup_insert_ne by congruence.
           cbn [length]. lia.
      * intros k Hk. rewrite Hl. destruct (decide (k = k0)) as [->|Hne].
        -- rewrite lookup_insert_eq. eauto.
        -- rewrite lookup_insert_ne by congruence. exact Hk.
  - cbn [step] in Hstep. unfold bind at 1 in Hstep. unfold gets at 1 in Hstep.
    destruct (existsb (key_eqb (broker, symbol)) (nursery st)) eqn:Htask.
    + pose proof (exec_quotes_feed_writes broker symbol shm_last qs st) as Hw.
      rewrite Hstep in Hw. cbn [snd] in Hw. destruct Hw as (Hn & Ho & Hs).
      apply count_tasks_existsb in Htask.
      assert (Hwk : is_Some (lasts (book st) !! (broker, symbol))).
      { specialize (Hinv (broker, symbol)).
        destruct (lasts (book st) !! (broker, symbol)); [eauto|lia]. }
      split; [|split; [|discriminate]].
      * intros k. rewrite Hn. specialize (Hinv k).
        destruct (decide (k = (broker, symbol))) as [->|Hne].
        -- destruct (Hs Hwk) as (v' & ->). destruct Hwk as (v & Hv).
           rewrite Hv in Hinv. exact Hinv.
        -- rewrite (Ho k Hne). exact Hinv.
      * intros k Hk. destruct (decide (k = (broker, symbol))) as [->|Hne].
        -- apply Hs, Hk.
        -- rewrite (Ho k Hne). exact Hk.
    + injection Hstep as <-. split; [exact Hinv|]. split; [auto|discriminate].
Qed.

Lemma run_keeps fq trace :
  forall st st',
    run fq trace st = (Ok tt, st') ->
    tasks_match_lasts st ->
    tasks_match_lasts st'
    /\ (forall k, is_Some (lasts (book st) !! k) ->
                  is_Some (lasts (book st') !! k))
    /\ (forall cmd k, Command cmd ∈ trace -> cmd_key cmd = Some k ->
                      is_Some (lasts (book st') !! k)).
Proof.
  unfold run. induction trace as [|i trace IH]; intros st st' Hrun Hinv.
  - injection Hrun as <-. split; [exact Hinv|]. split; [auto|].
    intros cmd k Hin. inversion Hin.
  - apply for_ok_cons in Hrun as (st1 & Hstep & Hrun).
    destruct (step_keeps fq i st st1 Hstep Hinv) as (Hinv1 & Hmono1 & Hcmd1).
    destruct (IH st1 st' Hrun Hinv1) as (Hinv' & Hmono & Hcmd).
    split; [exact Hinv'|]. split; [auto|].
    intros cmd k Hin Hkey. apply elem_of_cons in Hin as [<-|Hin].
    + apply Hmono. exact (Hcmd1 cmd k Logic.eq_refl Hkey).
    + exact (Hcmd cmd k Hin Hkey).
Qed.

Lemma tasks_match_lasts_init : tasks_match_lasts init.
Proof. intros k. unfold init. cbn. rewrite lookup_empty. reflexivity. Qed.

(** C7: in every state the actor reaches by accepting commands (and
    handling quote batches in the feed tasks it started), no key has more
    than one feed task and the key of every accepted command has exactly
    one; a further command for a key that has a last price starts no task,
    writes no last price, and its predicate is built from that last price. *)
Theorem one_feed_task_per_key fq trace st :
  run fq trace init = (Ok tt, st) ->
  (forall k, count_tasks k (nursery st) <= 1)
  /\ (forall cmd k, Command cmd ∈ trace -> cmd_key cmd = Some k ->
                    count_tasks k (nursery st) = 1)
  /\ (forall cmd k last,
        cmd_key cmd = Some k ->
        lasts (book st) !! k = Some last ->
        nursery (snd (stream_and_route_body fq cmd st)) = nursery st
        /\ lasts (book (snd (stream_and_route_body fq cmd st)))
           = lasts (book st)
        /\ forall st',
             stream_and_route_body fq cmd st = (Ok tt, st') ->
             exists E,
               bucket st' k = bucket st k ++ [E]
               /\ p_cmd E = cmd
               /\ mk_check (cmd_price cmd) last = Some (p_pred E, p_name E)).
Proof.
  intros Hrun.
  destruct (run_keeps fq trace init st Hrun tasks_match_lasts_init)
    as (Hinv & _ & Hcmd).
  split; [|split].
  - intros k. rewrite (Hinv k). destruct (lasts (book st) !! k); lia.
  - intros cmd k Hin Hkey. rewrite (Hinv k).
    destruct (Hcmd cmd k Hin Hkey) as (v & ->). reflexivity.
  - intros cmd k last Hkey Hlast. unfold cmd_key in Hkey.
    destruct (cmd_brokers cmd) as [|broker rest] eqn:Hb; [discriminate|].
    injection Hkey as <-.
    rewrite (stream_and_route_body_known fq cmd st broker rest last Hb Hlast).
    destruct (mk_check (cmd_price cmd) last) as [[pred name]|] eqn:Hmk.
    + cbn [snd nursery book lasts]. split; [reflexivity|]. split; [reflexivity|].
      intros st' [= <-]. eexists. unfold bucket at 1. cbn [book orders].
      rewrite lookup_insert_eq. cbn [default]. repeat split.
    + cbn [snd nursery book lasts]. split; [reflexivity|]. split; [reflexivity|].
      discriminate.
Qed.

(** ** The book the router builds *)

Lemma book_wf_init : book_wf (book init).
Proof. intros k l e H. unfold init in H. cbn in H. rewrite lookup_empty in H. discriminate H. Qed.

Lemma stream_and_route_body_wf fq cmd st st' :
  stream_and_route_body fq cmd st = (Ok tt, st') ->
  book_wf (book st) -> book_wf (book st').
Proof.
  intros Hok Hwf.
  destruct (stream_and_route_body_ok fq cmd st st' Hok)
    as (broker & rest & last & pred & name & Hb & _ & _ & _ & Ho & _).
  intros k l e Hl He. rewrite Ho in Hl.
  destruct (decide (k = (broker, cmd_symbol cmd))) as [->|Hne].
  - rewrite lookup_insert_eq in Hl. injection Hl as <-.
    apply elem_of_app in He as [He|He].
    + apply bucket_elem in He as (l0 & Hl0 & He). exact (Hwf _ _ _ Hl0 He).
    + apply list_elem_of_singleton in He as ->. split; [reflexivity|].
      cbn [p_cmd]. unfold cmd_key. rewrite Hb. reflexivity.
  - rewrite lookup_insert_ne in Hl by congruence. exact (Hwf _ _ _ Hl He).
Qed.

Lemma stream_and_route_wf fq cmds :
  forall st st',
    stream_and_route fq cmds st = (Ok tt, st') ->
    book_wf (book st) -> book_wf (book st').
Proof.
  unfold stream_and_route. induction cmds as [|cmd cmds IH]; intros st st' H Hwf.
  - injection H as <-. exact Hwf.
  - apply for_ok_cons in H as (st1 & H1 & H2).
    exact (IH st1 st' H2 (stream_and_route_body_wf fq cmd st st1 H1 Hwf)).
Qed.

(** Every state the actor reaches from the empty book has a book as the
    router builds it. *)
Lemma run_wf fq trace :
  forall st st',
    run fq trace st = (Ok tt, st') ->
    book_wf (book st) -> book_wf (book st').
Proof.
  unfold run. induction trace as [|i trace IH]; intros st st' H Hwf.
  - injection H as <-. exact Hwf.
  - apply for_ok_cons in H as (st1 & H1 & H2). apply (IH st1 st' H2).
    destruct i as [cmd|broker symbol shm_last qs]; cbn [step] in H1.
    + exact (stream_and_route_body_wf fq cmd st st1 H1 Hwf).
    + unfold bind at 1 in H1. unfold gets at 1 in H1.
      destruct (existsb (key_eqb (broker, symbol)) (nursery st)).
      * pose proof (exec_quotes_fire_rel (fun _ => True) (broker, symbol) ""
                      broker symbol shm_last qs st (fun _ _ _ => I) Hwf) as Hrel.
        rewrite H1 in Hrel. exact (proj1 Hrel).
      * injection H1 as <-. exact Hwf.
Qed.

(** ** The worked example *)

Lemma returns_snd {S} (m : M S unit) (st : S) :
  fst (m st) = Ok tt -> m st = (Ok tt, snd (m st)).
Proof. destruct (m st) as [r st']. cbn. intros ->. reflexivity. Qed.

Lemma ex_actor_ok :
  stream_and_route ex_feed [ex_o1; ex_o2] init = (Ok tt, ex_actor).
Proof.
  unfold ex_actor.
  apply (returns_snd (stream_and_route ex_feed [ex_o1; ex_o2]) init).
  vm_compute. reflexivity.
Qed.

Lemma ex_actor_wf : book_wf (book ex_actor).
Proof. exact (stream_and_route_wf _ _ _ _ ex_actor_ok book_wf_init). Qed.

(** The two alerts are acknowledged and pending, in the order sent. *)
Example ex_actor_pending :
  map p_oid (bucket ex_actor ("B", "X")) = ["o1"; "o2"]
  /\ map p_name (bucket ex_actor ("B", "X")) = ["up"; "up"]
  /\ sent ex_actor = [AckMsg "o1"; AckMsg "o2"]
  /\ nursery ex_actor = [("B", "X")].
Proof. vm_compute. repeat split. Qed.

(** Over the stream 65, 55, -1, 48, 47 the order "o2" (at or below 55)
    triggers at 55 and "o1" (at or below 50) at 48, each once. *)
Example ex_stream_run :
  let r := exec_orders_stream "B" "X" ex_stream ex_actor in
  fst r = Ok tt
  /\ map wire_oid (sent (snd r)) = ["o1"; "o2"; "o2"; "o1"]
  /\ bucket (snd r) ("B", "X") = []
  /\ lasts (book (snd r)) !! ("B", "X") = Some f47.
Proof. vm_compute. repeat split. Qed.

(** A tick at 48 satisfies both predicates: "o1" is sent before "o2". *)
Example ex_tick_both :
  let r := exec_tick "B" "X" 10 "X" (ex_tick f48) ex_actor in
  fst r = Ok tt
  /\ sent (snd r)
     = [AckMsg "o1"; AckMsg "o2";
        CmdMsg {| cmd_msg := "alert"; cmd_price := f50; cmd_symbol := "X";
                  cmd_brokers := ["B"]; cmd_oid := "o1";
                  cmd_name := Some "up"; cmd_index := Some 9%Z;
                  cmd_trigger_price := Some f48 |};
        CmdMsg {| cmd_msg := "alert"; cmd_price := f55; cmd_symbol := "X";
                  cmd_brokers := ["B"]; cmd_oid := "o2";
                  cmd_name := Some "up"; cmd_index := Some 9%Z;
                  cmd_trigger_price := Some f48 |}].
Proof. vm_compute. repeat split. Qed.

(** A tick without a price raises, and the book is as it was. *)
Example ex_tick_no_price :
  exec_quotes "B" "X" 10
    [("X", {| quote_last := None;
              quote_ticks := Some [{| tick_price := None |}] |})] ex_actor
  = (Raise TypeError, ex_actor).
Proof. reflexivity. Qed.

Lemma single_fire_witness :
  book_wf (book ex_actor)
  /\ count_oid "o1" (bucket ex_actor ("B", "X")) <= 1
  /\ exists new,
       sent (snd (exec_orders_stream "B" "X" ex_stream ex_actor))
       = sent ex_actor ++ new
       /\ count_triggers ("B", "X") "o1" new
          + count_oid "o1"
              (bucket (snd (exec_orders_stream "B" "X" ex_stream ex_actor))
                      ("B", "X"))
          = count_oid "o1" (bucket ex_actor ("B", "X"))
       /\ count_triggers ("B", "X") "o1" new <= 1
       /\ ((forall i qs s q, (i, qs) ∈ ex_stream -> (s, q) ∈ qs -> s = "X") ->
           length (List.filter (is_trigger_oid "o1") new) <= 1).
Proof.
  split; [exact ex_actor_wf|].
  split; [vm_compute; apply le_n|].
  apply (single_fire "B" "X" "X" "o1" ex_stream ex_actor).
  - exact ex_actor_wf.
  - vm_compute. apply le_n.
Defined.

Lemma triggers_follow_insertion_witness :
  cmd_key ex_o1 = Some ("B", "X")
  /\ cmd_key ex_o2 = Some ("B", "X")
  /\ stream_and_route ex_feed (ex_o1 :: [] ++ ex_o2 :: []) init
     = (Ok tt, ex_actor)
  /\ exists A B l1 l2 l3 lastA lastB,
       bucket ex_actor ("B", "X") = l1 ++ A :: l2 ++ B :: l3
       /\ p_cmd A = ex_o1 /\ p_cmd B = ex_o2
       /\ mk_check (cmd_price ex_o1) lastA = Some (p_pred A, p_name A)
       /\ mk_check (cmd_price ex_o2) lastB = Some (p_pred B, p_name B)
       /\ forall symbol shm_last t price,
            tick_price t = Some price ->
            lt price zero = false ->
            p_pred A price = true ->
            p_pred B price = true ->
            exists st'' m1 m2 m3,
              exec_tick "B" symbol shm_last "X" t ex_actor = (Ok tt, st'')
              /\ sent st''
                 = sent ex_actor ++ m1 ++ CmdMsg (trigger_cmd A shm_last price)
                     :: m2 ++ CmdMsg (trigger_cmd B shm_last price) :: m3.
Proof.
  split; [reflexivity|]. split; [reflexivity|]. split; [exact ex_actor_ok|].
  apply (triggers_follow_insertion ex_feed ex_o1 ex_o2 [] [] init ex_actor
           "B" "X").
  - reflexivity.
  - reflexivity.
  - exact ex_actor_ok.
Defined.

Lemma ex_traced_ok : run ex_feed ex_trace init = (Ok tt, ex_traced).
Proof.
  unfold ex_traced. apply (returns_snd (run ex_feed ex_trace) init).
  vm_compute. reflexivity.
Qed.

Lemma one_feed_task_per_key_witness :
  run ex_feed ex_trace init = (Ok tt, ex_traced)
  /\ (forall k, count_tasks k (nursery ex_traced) <= 1)
  /\ (forall cmd k, Command cmd ∈ ex_trace -> cmd_key cmd = Some k ->
                    count_tasks k (nursery ex_traced) = 1)
  /\ (forall cmd k last,
        cmd_key cmd = Some k ->
        lasts (book ex_traced) !! k = Some last ->
        nursery (snd (stream_and_route_body ex_feed cmd ex_traced))
        = nursery ex_traced
        /\ lasts (book (snd (stream_and_route_body ex_feed cmd ex_traced)))
           = lasts (book ex_traced)
        /\ forall st',
             stream_and_route_body ex_feed cmd ex_traced = (Ok tt, st') ->
             exists E,
               bucket st' k = bucket ex_traced k ++ [E]
               /\ p_cmd E = cmd
               /\ mk_check (cmd_price cmd) last = Some (p_pred E, p_name E)).
Proof.
  split; [exact ex_traced_ok|].
  apply (one_feed_task_per_key ex_feed ex_trace ex_traced).
  exact ex_traced_ok.
Defined.

(** ** The cancel command *)

(** C2, at the input where the code departs from it: a cancel for "o1",
    arriving while "o1" and "o2" are pending, is handled like an order:
    the router returns, appends a third pending order built from the cancel
    command, and acknowledges it; the book is not as it was. *)
Theorem cancel_is_queued_and_acked :
  let r := stream_and_route_body ex_feed ex_cancel ex_actor in
  fst r = Ok tt
  /\ sent (snd r) = sent ex_actor ++ [AckMsg "o1"]
  /\ map p_oid (bucket (snd r) ("B", "X")) = ["o1"; "o2"; "o1"]
  /\ map (fun e => cmd_msg (p_cmd e)) (bucket (snd r) ("B", "X"))
     = ["alert"; "alert"; "cancel"]
  /\ orders (book (snd r)) <> orders (book ex_actor).
Proof.
  cbv zeta. split; [vm_compute; reflexivity|].
  split; [vm_compute; reflexivity|].
  split; [vm_compute; reflexivity|].
  split; [vm_compute; reflexivity|].
  intros H.
  apply (f_equal (fun o : gmap key (list pending) =>
                    length (default [] (o !! ("B", "X"))))) in H.
  vm_compute in H. discriminate H.
Qed.

(** * Further properties *)

(** ** A tick removes the orders it triggers and no other *)

Lemma pending_eqb_stamp (a b : pending) :
  pending_eqb a b = true -> p_pred_obj a = p_pred_obj b.
Proof.
  unfold pending_eqb. intros H.
  apply andb_prop in H as [H _]. apply andb_prop in H as [H _].
  apply andb_prop in H as [_ H]. apply Nat.eqb_eq. exact H.
Qed.

Lemma list_remove_exact (x e : pending) (rest : list pending) :
  pending_eqb e x = true ->
  forall pre,
    p_pred_obj e ∉ map p_pred_obj pre ->
    list_remove x (pre ++ e :: rest) = Some (pre ++ rest).
Proof.
  intros He. induction pre as [|y pre IH]; intros Hnot; simpl.
  - rewrite He. reflexivity.
  - destruct (pending_eqb y x) eqn:Hy.
    + exfalso. apply Hnot. cbn [map].
      rewrite (pending_eqb_stamp _ _ He), <- (pending_eqb_stamp _ _ Hy).
      apply list_elem_of_here.
    + rewrite IH; [reflexivity|].
      intros Hin. apply Hnot. cbn [map]. apply list_elem_of_further. exact Hin.
Qed.

Lemma NoDup_stamps_middle (pre : list pending) e rest :
  NoDup (map p_pred_obj (pre ++ e :: rest)) ->
  (p_pred_obj e ∉ map p_pred_obj pre)
  /\ NoDup (map p_pred_obj (pre ++ rest)).
Proof.
  rewrite !map_app. cbn [map]. intros H.
  apply NoDup_app in H as (Hpre & Hdisj & Hrest).
  apply NoDup_cons in Hrest as (Hne & Hrest). split.
  - intros Hin. apply (Hdisj _ Hin). apply list_elem_of_here.
  - apply NoDup_app. split; [exact Hpre|]. split; [|exact Hrest].
    intros z Hz Hz'. apply (Hdisj z Hz). apply list_elem_of_further. exact Hz'.
Qed.

Section SnapshotExact.

Variables (broker : string) (shm_last : Z) (sym : string) (price : float).

Lemma exec_order_fires_exact e pre rest st :
  p_pred e price = true ->
  orders (book st) !! (broker, sym) = Some (pre ++ e :: rest) ->
  p_pred_obj e ∉ map p_pred_obj pre ->
  exec_order broker shm_last sym price e st
  = (Ok tt, after_snapshot st (broker, sym) (pre ++ rest)
              [CmdMsg (trigger_cmd e shm_last price)]).
Proof.
  intros Hfire Hlive Hnot. unfold exec_order. rewrite Hfire.
  unfold bind, send_yield, modify, execs_remove, get_book, gets, bind. simpl.
  rewrite Hlive.
  rewrite (list_remove_exact _ e rest
             (pending_eqb_triggered e (trigger_cmd e shm_last price)) pre Hnot).
  reflexivity.
Qed.

Lemma exec_order_loop_exact :
  forall rest pre st,
    orders (book st) !! (broker, sym) = Some (pre ++ rest) ->
    NoDup (map p_pred_obj (pre ++ rest)) ->
    for_ rest (exec_order broker shm_last sym price) st
    = (Ok tt,
       after_snapshot st (broker, sym)
         (pre ++ List.filter (fun e => negb (p_pred e price)) rest)
         (triggers_of shm_last price rest)).
Proof.
  induction rest as [|e rest IH]; intros pre st Hlive Hnd.
  - cbn [for_ List.filter]. unfold ret, triggers_of. cbn [List.filter map].
    rewrite after_snapshot_id; [reflexivity|exact Hlive].
  - cbn [for_ List.filter]. rewrite triggers_of_cons.
    destruct (p_pred e price) eqn:Hfire; cbn [negb].
    + destruct (NoDup_stamps_middle _ _ _ Hnd) as (Hnot & Hnd').
      rewrite (bind_ok _ _ _ _ _
                 (exec_order_fires_exact e pre rest st Hfire Hlive Hnot)).
      rewrite (IH pre); [|apply lookup_insert_eq|exact Hnd'].
      rewrite after_snapshot_twice. reflexivity.
    + assert (Hstep : exec_order broker shm_last sym price e st = (Ok tt, st)).
      { unfold exec_order. rewrite Hfire. reflexivity. }
      rewrite (bind_ok _ _ _ _ _ Hstep).
      rewrite (IH (pre ++ [e])).
      * rewrite <- app_assoc. reflexivity.
      * rewrite <- app_assoc. exact Hlive.
      * rewrite <- app_assoc. exact Hnd.
Qed.

End SnapshotExact.

(** One tick with a price that is not negative, on a list with distinct
    stamps. *)
Lemma exec_tick_exact broker symbol shm_last sym t price st :
  tick_price t = Some price ->
  lt price zero = false ->
  NoDup (map p_pred_obj (bucket st (broker, sym))) ->
  exists st',
    exec_tick broker symbol shm_last sym t st = (Ok tt, st')
    /\ bucket st' (broker, sym)
       = List.filter (fun e => negb (p_pred e price)) (bucket st (broker, sym))
    /\ sent st' = sent st ++ triggers_of shm_last price (bucket st (broker, sym))
    /\ (forall k', k' ≠ (broker, sym) -> bucket st' k' = bucket st k')
    /\ next_obj st' = next_obj st.
Proof.
  intros Hp Hlt. unfold exec_tick. rewrite Hp, Hlt.
  unfold bind at 1. unfold set_last at 1, modify at 1.
  unfold bind at 1. unfold get_book at 1, gets at 1. cbn [book orders].
  unfold bucket.
  destruct (orders (book st) !! (broker, sym)) as [l|] eqn:Hl; cbn [default].
  - intros Hnd. set (st0 := {| book := _; sent := sent st |}).
    assert (Hloop :
      (match l with
       | [] => ret tt
       | _ :: _ => for_ l (exec_order broker shm_last sym price)
       end) st0 = for_ l (exec_order broker shm_last sym price) st0).
    { destruct l; reflexivity. }
    rewrite Hloop.
    rewrite (exec_order_loop_exact broker shm_last sym price l [] st0 Hl Hnd).
    eexists. split; [reflexivity|]. cbn.
    rewrite lookup_insert_eq. cbn. repeat split.
    intros k' Hk'. rewrite lookup_insert_ne by congruence. reflexivity.
  - intros _. eexists. split; [reflexivity|]. cbn. rewrite Hl. cbn.
    rewrite app_nil_r. repeat split.
Qed.

Lemma NoDup_map_filter {A B} (f : A -> B) (P : A -> bool) (l : list A) :
  NoDup (map f l) -> NoDup (map f (List.filter P l)).
Proof.
  induction l as [|x l IH]; cbn [map List.filter]; intros H.
  - constructor.
  - apply NoDup_cons in H as (Hx & H). destruct (P x); [|exact (IH H)].
    cbn [map]. apply NoDup_cons. split; [|exact (IH H)].
    intros Hin. apply Hx. clear -Hin.
    induction l as [|y l IH]; cbn [map List.filter] in *; [exact Hin|].
    destruct (P y); cbn [map] in *.
    + apply elem_of_cons in Hin as [->|Hin].
      * apply list_elem_of_here.
      * apply list_elem_of_further. exact (IH Hin).
    + apply list_elem_of_further. exact (IH Hin).
Qed.

Lemma Forall_filter_keep {A} (Q : A -> Prop) (P : A -> bool) (l : list A) :
  Forall Q l -> Forall Q (List.filter P l).
Proof.
  induction 1 as [|x l Hx _ IH]; cbn [List.filter]; [constructor|].
  destruct (P x); [constructor; assumption|exact IH].
Qed.

Lemma exec_tick_stamps broker symbol shm_last sym t st :
  stamps_ok st -> stamps_ok (snd (exec_tick broker symbol shm_last sym t st)).
Proof.
  intros Hok. destruct (tick_price t) as [price|] eqn:Hp.
  - destruct (lt price zero) eqn:Hlt.
    + rewrite (exec_tick_negative _ _ _ _ _ _ st Hp Hlt). exact Hok.
    + destruct (exec_tick_exact broker symbol shm_last sym t price st Hp Hlt
                  (proj1 (Hok (broker, sym))))
        as (st' & Hrun & Hb & _ & Hother & Hn).
      rewrite Hrun. cbn [snd]. intros k. rewrite Hn.
      destruct (decide (k = (broker, sym))) as [->|Hne].
      * rewrite Hb. destruct (Hok (broker, sym)) as (Hnd & Hlt').
        split; [apply NoDup_map_filter, Hnd|apply Forall_filter_keep, Hlt'].
      * rewrite (Hother k Hne). apply Hok.
  - unfold exec_tick. rewrite Hp. exact Hok.
Qed.

Lemma exec_quotes_stamps broker symbol shm_last (qs : quotes) st :
  stamps_ok st -> stamps_ok (snd (exec_quotes broker symbol shm_last qs st)).
Proof.
  unfold exec_quotes.
  apply (for_rel (fun a b => stamps_ok a -> stamps_ok b)); [auto|auto|].
  intros [s q] st' _. cbn [exec_quote].
  apply (for_rel (fun a b => stamps_ok a -> stamps_ok b)); [auto|auto|].
  intros t st'' _. apply exec_tick_stamps.
Qed.

Lemma stream_and_route_body_stamps fq cmd st st' :
  stream_and_route_body fq cmd st = (Ok tt, st') ->
  stamps_ok st -> stamps_ok st'.
Proof.
  intros Hrun Hok.
  destruct (stream_and_route_body_ok fq cmd st st' Hrun)
    as (broker & rest & last & pred & name & _ & _ & _ & _ & Ho & _ & Hn).
  intros k. unfold bucket at 1 2. rewrite Ho, Hn.
  destruct (Hok k) as (Hnd & Hlt).
  destruct (decide (k = (broker, cmd_symbol cmd))) as [->|Hne].
  - rewrite lookup_insert_eq. cbn [default id]. split.
    + rewrite map_app. cbn [map p_pred_obj]. apply NoDup_app.
      split; [exact Hnd|]. split; [|apply NoDup_singleton].
      intros z Hz Hz'. apply list_elem_of_singleton in Hz'. subst z.
      apply list_elem_of_fmap in Hz as (e & He & Hin).
      rewrite Forall_forall in Hlt. specialize (Hlt e Hin). lia.
    + apply Forall_app. split.
      * eapply Forall_impl; [exact Hlt|]. intros e He. cbn in He. lia.
      * constructor; [cbn; lia|constructor].
  - rewrite lookup_insert_ne by congruence. split; [exact Hnd|].
    eapply Forall_impl; [exact Hlt|]. intros e He. cbn in He. lia.
Qed.

Lemma stamps_ok_init : stamps_ok init.
Proof.
  intros k. unfold bucket, init. cbn. rewrite lookup_empty. cbn.
  split; constructor.
Qed.

(** In every state the actor reaches, the pending orders of a key have
    closures of their own. *)
Lemma run_stamps fq trace :
  forall st st',
    run fq trace st = (Ok tt, st') -> stamps_ok st -> stamps_ok st'.
Proof.
  unfold run. induction trace as [|i trace IH]; intros st st' H Hok.
  - injection H as <-. exact Hok.
  - apply for_ok_cons in H as (st1 & H1 & H2). apply (IH st1 st' H2).
    destruct i as [cmd|broker symbol shm_last qs]; cbn [step] in H1.
    + exact (stream_and_route_body_stamps fq cmd st st1 H1 Hok).
    + unfold bind at 1 in H1. unfold gets at 1 in H1.
      destruct (existsb (key_eqb (broker, symbol)) (nursery st)).
      * pose proof (exec_quotes_stamps broker symbol shm_last qs st Hok) as Hs.
        rewrite H1 in Hs. exact Hs.
      * injection H1 as <-. exact Hok.
Qed.

(** X1: in a state the actor has reached, a tick with a price that is not
    negative is handled without an error; it takes out of the key's list
    exactly the orders whose predicate it satisfies, keeps the others in
    their order, sends the messages of the orders taken out in the order of
    the list, and leaves the lists of the other keys alone. *)
Theorem tick_removes_triggered fq trace st broker symbol shm_last sym t price :
  run fq trace init = (Ok tt, st) ->
  tick_price t = Some price ->
  lt price zero = false ->
  exists st',
    exec_tick broker symbol shm_last sym t st = (Ok tt, st')
    /\ bucket st' (broker, sym)
       = List.filter (fun e => negb (p_pred e price)) (bucket st (broker, sym))
    /\ sent st'
       = sent st
         ++ map (fun e => CmdMsg (trigger_cmd e shm_last price))
                (List.filter (fun e => p_pred e price)
                             (bucket st (broker, sym)))
    /\ (forall k', k' ≠ (broker, sym) -> bucket st' k' = bucket st k').
Proof.
  intros Hrun Hp Hlt.
  pose proof (run_stamps fq trace init st Hrun stamps_ok_init) as Hok.
  destruct (exec_tick_exact broker symbol shm_last sym t price st Hp Hlt
              (proj1 (Hok (broker, sym))))
    as (st' & Hstep & Hb & Hs & Hother & _).
  exists st'. split; [exact Hstep|]. split; [exact Hb|].
  split; [exact Hs|exact Hother].
Qed.

Lemma tick_removes_triggered_witness :
  run ex_feed ex_trace init = (Ok tt, ex_traced)
  /\ tick_price (ex_tick f50) = Some f50
  /\ lt f50 zero = false
  /\ exists st',
       exec_tick "B" "X" 10 "X" (ex_tick f50) ex_traced = (Ok tt, st')
       /\ bucket st' ("B", "X")
          = List.filter (fun e => negb (p_pred e f50))
                        (bucket ex_traced ("B", "X"))
       /\ sent st'
          = sent ex_traced
            ++ map (fun e => CmdMsg (trigger_cmd e 10 f50))
                   (List.filter (fun e => p_pred e f50)
                                (bucket ex_traced ("B", "X")))
       /\ (forall k', k' ≠ ("B", "X") -> bucket st' k' = bucket ex_traced k').
Proof.
  split; [exact ex_traced_ok|]. split; [reflexivity|]. split; [reflexivity|].
  apply (tick_removes_triggered ex_feed ex_trace ex_traced "B" "X" 10 "X"
           (ex_tick f50) f50).
  - exact ex_traced_ok.
  - reflexivity.
  - reflexivity.
Defined.

(** ** The last price the feed task keeps *)

Lemma exec_tick_lasts broker symbol shm_last sym t st :
  has_price t = true ->
  exists st',
    exec_tick broker symbol shm_last sym t st = (Ok tt, st')
    /\ lasts (book st')
       = match handled_price t with
         | Some price => <[(broker, symbol) := price]> (lasts (book st))
         | None => lasts (book st)
         end.
Proof.
  unfold has_price, handled_price.
  destruct (tick_price t) as [price|] eqn:Hp; [intros _|discriminate].
  destruct (lt price zero) eqn:Hlt.
  - exists st. split; [|reflexivity].
    exact (exec_tick_negative _ _ _ _ _ _ st Hp Hlt).
  - destruct (exec_tick_spec broker symbol shm_last sym t price st Hp Hlt)
      as (st' & Hrun & _ & Hl & _).
    exists st'. split; assumption.
Qed.

Lemma exec_ticks_lasts broker symbol shm_last sym :
  forall ticks st,
    forallb has_price ticks = true ->
    exists st',
      for_ ticks (exec_tick broker symbol shm_last sym) st = (Ok tt, st')
      /\ lasts (book st')
         = fold_left (fun m price => <[(broker, symbol) := price]> m)
                     (omap handled_price ticks) (lasts (book st)).
Proof.
  induction ticks as [|t ticks IH]; intros st Hall.
  - exists st. split; reflexivity.
  - cbn [forallb] in Hall. apply andb_prop in Hall as [Ht Hall].
    destruct (exec_tick_lasts broker symbol shm_last sym t st Ht)
      as (st1 & H1 & Hl1).
    destruct (IH st1 Hall) as (st' & H' & Hl').
    exists st'. split.
    + cbn [for_]. rewrite (bind_ok _ _ _ _ _ H1). exact H'.
    + rewrite Hl', Hl1. cbn [omap list_omap].
      destruct (handled_price t); reflexivity.
Qed.

Lemma exec_quotes_lasts broker symbol shm_last :
  forall (qs : quotes) st,
    all_priced qs = true ->
    exists st',
      exec_quotes broker symbol shm_last qs st = (Ok tt, st')
      /\ lasts (book st')
         = fold_left (fun m price => <[(broker, symbol) := price]> m)
                     (handled_prices qs) (lasts (book st)).
Proof.
  unfold exec_quotes, all_priced, handled_prices.
  induction qs as [|[sym q] qs IH]; intros st Hall.
  - exists st. split; reflexivity.
  - cbn [forallb snd] in Hall. apply andb_prop in Hall as [Hq Hall].
    destruct (exec_ticks_lasts broker symbol shm_last sym _ st Hq)
      as (st1 & H1 & Hl1).
    destruct (IH st1 Hall) as (st' & H' & Hl').
    exists st'. split.
    + cbn [for_ exec_quote]. rewrite (bind_ok _ _ _ _ _ H1). exact H'.
    + rewrite Hl', Hl1. cbn [flat_map snd]. rewrite fold_left_app. reflexivity.
Qed.

Lemma fold_insert_last {V} (k : key) (vs : list V) (m : gmap key V) :
  fold_left (fun m v => <[k := v]> m) vs m
  = match last vs with
    | Some v => <[k := v]> m
    | None => m
    end.
Proof.
  revert m. induction vs as [|v vs IH]; intros m; [reflexivity|].
  cbn [fold_left]. rewrite IH. destruct vs as [|v' vs]; [reflexivity|].
  rewrite last_cons_cons. destruct (last (v' :: vs)) eqn:E.
  - rewrite insert_insert_eq. reflexivity.
  - apply last_None in E. discriminate E.
Qed.

(** X2: a batch whose ticks all carry a price is handled without an
    error, and leaves under the task's own key [(broker, symbol)] the price
    of the last tick of the batch that is not negative, whatever symbol
    that tick was quoted for; a batch without such a tick leaves the last
    prices as they were. *)
Theorem batch_keeps_last_price broker symbol shm_last (qs : quotes) st :
  all_priced qs = true ->
  exists st',
    exec_quotes broker symbol shm_last qs st = (Ok tt, st')
    /\ lasts (book st')
       = match last (handled_prices qs) with
         | Some price => <[(broker, symbol) := price]> (lasts (book st))
         | None => lasts (book st)
         end.
Proof.
  intros Hall.
  destruct (exec_quotes_lasts broker symbol shm_last qs st Hall)
    as (st' & Hrun & Hl).
  exists st'. split; [exact Hrun|]. rewrite Hl. apply fold_insert_last.
Qed.

Lemma batch_keeps_last_price_witness :
  all_priced [("X", {| quote_last := None;
                       quote_ticks := Some [ex_tick f65; ex_tick f_neg1] |});
              ("Y", {| quote_last := None;
                       quote_ticks := Some [ex_tick f48; ex_tick f_neg1] |})]
  = true
  /\ exists st',
       exec_quotes "B" "X" 10
         [("X", {| quote_last := None;
                   quote_ticks := Some [ex_tick f65; ex_tick f_neg1] |});
          ("Y", {| quote_last := None;
                   quote_ticks := Some [ex_tick f48; ex_tick f_neg1] |})]
         ex_actor = (Ok tt, st')
       /\ lasts (book st')
          = match last (handled_prices
                  [("X", {| quote_last := None;
                            quote_ticks := Some [ex_tick f65; ex_tick f_neg1] |});
                   ("Y", {| quote_last := None;
                            quote_ticks := Some [ex_tick f48; ex_tick f_neg1] |})])
            with
            | Some price => <[("B", "X") := price]> (lasts (book ex_actor))
            | None => lasts (book ex_actor)
            end.
Proof.
  split; [reflexivity|].
  apply (batch_keeps_last_price "B" "X" 10 _ ex_actor). reflexivity.
Defined.

(** ** More on the router *)

(** A command whose key has no last price: the router starts the feed
    task, takes the last price of its first quote and checks the trigger
    price against it. *)
Lemma stream_and_route_body_unknown fq cmd st broker rest :
  cmd_brokers cmd = broker :: rest ->
  lasts (book st) !! (broker, cmd_symbol cmd) = None ->
  stream_and_route_body fq cmd st
  = let k := (broker, cmd_symbol cmd) in
    let started :=
      {| book := book st; sent := sent st; nursery := nursery st ++ [k];
         next_obj := S (next_obj st) |} in
    match quotes_get (fq broker (cmd_symbol cmd)) (cmd_symbol cmd) with
    | None => (Raise KeyError, started)
    | Some q =>
        match quote_last q with
        | None => (Raise KeyError, started)
        | Some last =>
            match mk_check (cmd_price cmd) last with
            | Some (pred, name) =>
                (Ok tt,
                 {| book :=
                      {| orders :=
                           <[k := bucket st k
                                  ++ [ {| p_oid := cmd_oid cmd; p_pred := pred;
                                          p_pred_obj := S (next_obj st);
                                          p_name := name; p_cmd := cmd;
                                          p_cmd_obj := next_obj st |} ] ]>
                             (orders (book st));
                         lasts := <[k := last]> (lasts (book st)) |};
                    sent := sent st ++ [AckMsg (cmd_oid cmd)];
                    nursery := nursery st ++ [k];
                    next_obj := S (S (next_obj st)) |})
            | None =>
                (Raise TypeError,
                 {| book := {| orders := orders (book st);
                               lasts := <[k := last]> (lasts (book st)) |};
                    sent := sent st; nursery := nursery st ++ [k];
                    next_obj := S (next_obj st) |})
            end
        end
    end.
Proof.
  intros Hb Hlast. unfold stream_and_route_body. unfold bind at 1.
  unfold fresh at 1. unfold bind at 1.
  replace ((if String.eqb (cmd_msg cmd) "cancel" then ret tt else ret tt)
             {| book := book st; sent := sent st; nursery := nursery st;
                next_obj := S (next_obj st) |})
    with (Ok tt, {| book := book st; sent := sent st; nursery := nursery st;
                next_obj := S (next_obj st) |})
    by (destruct (String.eqb (cmd_msg cmd) "cancel"); reflexivity).
  rewrite Hb. unfold bind at 1. unfold get_book at 1, gets at 1. cbn [book].
  unfold bind at 1. rewrite Hlast.
  unfold exec_orders_started. unfold bind at 1. unfold bind at 1.
  unfold start_task at 1, modify at 1. unfold bind at 1.
  cbv zeta.
  destruct (quotes_get (fq broker (cmd_symbol cmd)) (cmd_symbol cmd)) as [q|];
    [|reflexivity].
  unfold subscript at 1, ret at 1. unfold bind at 1.
  destruct (quote_last q) as [last|]; [|reflexivity].
  unfold subscript at 1, ret at 1. unfold set_last at 1, modify at 1.
  unfold bind at 1. unfold get_book at 1, gets at 1. cbn [book lasts].
  unfold bind at 1. rewrite lookup_insert_eq. unfold subscript, ret at 1.
  destruct (mk_check (cmd_price cmd) last) as [[pred name]|]; reflexivity.
Qed.

Lemma cmd_key_brokers cmd k :
  cmd_key cmd = Some k ->
  exists rest, cmd_brokers cmd = fst k :: rest /\ snd k = cmd_symbol cmd.
Proof.
  unfold cmd_key. destruct (cmd_brokers cmd) as [|broker rest]; [discriminate|].
  intros H. injection H as <-. exists rest. split; reflexivity.
Qed.

Lemma stream_and_route_body_key fq cmd st st' :
  stream_and_route_body fq cmd st = (Ok tt, st') ->
  exists k, cmd_key cmd = Some k.
Proof.
  intros H. destruct (stream_and_route_body_ok fq cmd st st' H)
    as (broker & rest & _ & _ & _ & Hb & _).
  exists (broker, cmd_symbol cmd). unfold cmd_key. rewrite Hb. reflexivity.
Qed.

Lemma stream_and_route_acks fq cmds :
  forall st st',
    stream_and_route fq cmds st = (Ok tt, st') ->
    sent st' = sent st ++ map (fun cmd => AckMsg (cmd_oid cmd)) cmds.
Proof.
  unfold stream_and_route. induction cmds as [|cmd cmds IH]; intros st st' H.
  - injection H as <-. cbn [map]. rewrite app_nil_r. reflexivity.
  - apply for_ok_cons in H as (st1 & H1 & H2).
    destruct (stream_and_route_body_ok fq cmd st st1 H1)
      as (broker & rest & last & pred & name & _ & _ & _ & _ & _ & Hs & _).
    rewrite (IH st1 st' H2), Hs. cbn [map]. rewrite <- app_assoc. reflexivity.
Qed.

(** X3: while it accepts commands the router sends one acknowledgement
    per command, with the oid of the command, in the order of the commands,
    and nothing else. *)
Theorem router_acks_in_order fq cmds st st' :
  stream_and_route fq cmds st = (Ok tt, st') ->
  sent st' = sent st ++ map (fun cmd => AckMsg (cmd_oid cmd)) cmds.
Proof. apply stream_and_route_acks. Qed.

Lemma router_acks_in_order_witness :
  stream_and_route ex_feed [ex_o1; ex_o2] init = (Ok tt, ex_actor)
  /\ sent ex_actor
     = sent init ++ map (fun cmd => AckMsg (cmd_oid cmd)) [ex_o1; ex_o2].
Proof.
  split; [exact ex_actor_ok|].
  exact (router_acks_in_order ex_feed [ex_o1; ex_o2] init ex_actor ex_actor_ok).
Defined.

(** X4: the commands the router accepts are filed, each under the key
    [(brokers[0], symbol)], at the end of the list of that key: after any
    run of accepted commands the command dicts pending under a key are
    those pending before, followed by the accepted commands of that key in
    the order they arrived. *)
Theorem router_files_in_order fq cmds k :
  forall st st',
    stream_and_route fq cmds st = (Ok tt, st') ->
    map p_cmd (bucket st' k) = map p_cmd (bucket st k) ++ filed_under k cmds.
Proof.
  unfold stream_and_route. induction cmds as [|cmd cmds IH]; intros st st' H.
  - injection H as <-. cbn. rewrite app_nil_r. reflexivity.
  - apply for_ok_cons in H as (st1 & H1 & H2).
    destruct (stream_and_route_body_key fq cmd st st1 H1) as (k0 & Hk0).
    destruct (stream_and_route_body_appends fq cmd st st1 k0 H1 Hk0)
      as ((E & _ & HE & HcE & _) & Hother).
    rewrite (IH st1 st' H2). unfold filed_under. cbn [List.filter].
    rewrite Hk0. cbn [option_eqb].
    destruct (key_eqb k0 k) eqn:Ek.
    + apply key_eqb_eq in Ek. subst k0. rewrite HE, map_app. cbn [map].
      rewrite HcE, <- app_assoc. reflexivity.
    + rewrite Hother; [reflexivity|].
      intros ->. rewrite key_eqb_refl in Ek. discriminate Ek.
Qed.

Lemma router_files_in_order_witness :
  stream_and_route ex_feed [ex_o1; ex_o2] init = (Ok tt, ex_actor)
  /\ map p_cmd (bucket ex_actor ("B", "X"))
     = map p_cmd (bucket init ("B", "X"))
       ++ filed_under ("B", "X") [ex_o1; ex_o2].
Proof.
  split; [exact ex_actor_ok|].
  exact (router_files_in_order ex_feed [ex_o1; ex_o2] ("B", "X") init ex_actor
           ex_actor_ok).
Defined.

(** X5: a command with an empty list of brokers makes the router raise
    [IndexError]; the book, the messages sent and the feed tasks are as
    they were. *)
Theorem router_no_broker fq cmd st :
  cmd_brokers cmd = [] ->
  fst (stream_and_route_body fq cmd st) = Raise IndexError
  /\ book (snd (stream_and_route_body fq cmd st)) = book st
  /\ sent (snd (stream_and_route_body fq cmd st)) = sent st
  /\ nursery (snd (stream_and_route_body fq cmd st)) = nursery st.
Proof.
  intros Hb.
  assert (Hrun : stream_and_route_body fq cmd st
                 = (Raise IndexError,
                    {| book := book st; sent := sent st; nursery := nursery st;
                       next_obj := S (next_obj st) |})).
  { unfold stream_and_route_body. unfold bind at 1.
    unfold fresh at 1. unfold bind at 1.
    replace ((if String.eqb (cmd_msg cmd) "cancel" then ret tt else ret tt)
               {| book := book st; sent := sent st; nursery := nursery st;
                  next_obj := S (next_obj st) |})
      with (Ok tt, {| book := book st; sent := sent st; nursery := nursery st;
                  next_obj := S (next_obj st) |})
      by (destruct (String.eqb (cmd_msg cmd) "cancel"); reflexivity).
    rewrite Hb. reflexivity. }
  rewrite Hrun. repeat split.
Qed.

Lemma router_no_broker_witness :
  cmd_brokers ex_no_broker = []
  /\ fst (stream_and_route_body ex_feed ex_no_broker ex_actor)
     = Raise IndexError
  /\ book (snd (stream_and_route_body ex_feed ex_no_broker ex_actor))
     = book ex_actor
  /\ sent (snd (stream_and_route_body ex_feed ex_no_broker ex_actor))
     = sent ex_actor
  /\ nursery (snd (stream_and_route_body ex_feed ex_no_broker ex_actor))
     = nursery ex_actor.
Proof.
  split; [reflexivity|].
  apply (router_no_broker ex_feed ex_no_broker ex_actor). reflexivity.
Defined.

(** ** NaN *)

Lemma SFcompare_nan (a b : float) :
  is_nan a || is_nan b = true -> SFcompare a b = None.
Proof.
  destruct a as [sa|sa| |sa ma ea], b as [sb|sb| |sb mb eb];
    cbn; try discriminate; reflexivity.
Qed.

Lemma mk_check_nan (trigger_price known_last : float) :
  is_nan trigger_price || is_nan known_last = true ->
  mk_check trigger_price known_last = None.
Proof.
  intros H. unfold mk_check, ge, le, SFleb.
  rewrite (SFcompare_nan _ _ H). reflexivity.
Qed.

Lemma mk_check_none_nan (trigger_price known_last : float) :
  mk_check trigger_price known_last = None ->
  is_nan trigger_price || is_nan known_last = true.
Proof.
  unfold mk_check, ge, le, SFleb. intros H. apply SFcompare_None.
  destruct (SFcompare trigger_price known_last) as [[]|];
    try discriminate H; reflexivity.
Qed.

(** X6: [mk_check] returns nothing (and its caller's unpacking fails)
    exactly when the trigger price or the last price is a NaN. *)
Theorem mk_check_none_iff_nan (trigger_price known_last : float) :
  mk_check trigger_price known_last = None
  <-> is_nan trigger_price || is_nan known_last = true.
Proof.
  split.
  - apply mk_check_none_nan.
  - apply mk_check_nan.
Qed.

(** X7: a command whose price is a NaN is never accepted: for a key with
    a last price the router raises [TypeError] and the book, the messages
    and the feed tasks are as they were; for a key without one it raises
    [TypeError], or [KeyError] when the first quote is missing, and in
    both cases no order is filed and nothing is sent. *)
Theorem router_rejects_nan fq cmd st k :
  cmd_key cmd = Some k ->
  is_nan (cmd_price cmd) = true ->
  (forall last,
     lasts (book st) !! k = Some last ->
     fst (stream_and_route_body fq cmd st) = Raise TypeError
     /\ book (snd (stream_and_route_body fq cmd st)) = book st
     /\ sent (snd (stream_and_route_body fq cmd st)) = sent st
     /\ nursery (snd (stream_and_route_body fq cmd st)) = nursery st)
  /\ (lasts (book st) !! k = None ->
      (fst (stream_and_route_body fq cmd st) = Raise TypeError
       \/ fst (stream_and_route_body fq cmd st) = Raise KeyError)
      /\ orders (book (snd (stream_and_route_body fq cmd st)))
         = orders (book st)
      /\ sent (snd (stream_and_route_body fq cmd st)) = sent st).
Proof.
  intros Hkey Hnan.
  destruct (cmd_key_brokers cmd k Hkey) as (rest & Hb & Hsym).
  destruct k as [broker sym]. cbn [fst snd] in Hb, Hsym. subst sym.
  assert (Hmk : forall last, mk_check (cmd_price cmd) last = None).
  { intros last. apply mk_check_nan. rewrite Hnan. reflexivity. }
  split.
  - intros last Hlast.
    rewrite (stream_and_route_body_known fq cmd st broker rest last Hb Hlast).
    rewrite Hmk. cbn. destruct st as [b s n c]. repeat split.
  - intros Hlast.
    rewrite (stream_and_route_body_unknown fq cmd st broker rest Hb Hlast).
    cbv zeta.
    destruct (quotes_get (fq broker (cmd_symbol cmd)) (cmd_symbol cmd)) as [q|];
      [|cbn; auto].
    destruct (quote_last q) as [last|]; [|cbn; auto].
    rewrite Hmk. cbn. auto.
Qed.

Lemma router_rejects_nan_witness :
  cmd_key ex_nan = Some ("B", "X")
  /\ is_nan (cmd_price ex_nan) = true
  /\ fst (stream_and_route_body ex_feed ex_nan ex_actor) = Raise TypeError
  /\ fst (stream_and_route_body ex_feed ex_nan init) = Raise TypeError.
Proof.
  split; [reflexivity|]. split; [reflexivity|]. split.
  - apply (proj1 (router_rejects_nan ex_feed ex_nan ex_actor ("B", "X")
                    Logic.eq_refl Logic.eq_refl) f60).
    vm_compute. reflexivity.
  - destruct (proj2 (router_rejects_nan ex_feed ex_nan init ("B", "X")
                       Logic.eq_refl Logic.eq_refl)) as ([H|H] & _).
    + vm_compute. reflexivity.
    + exact H.
    + vm_compute in H. discriminate H.
Defined.



(** X9: when the first quote of a new feed has no entry for the symbol,
    or the entry has no last price, the router raises [KeyError]: no last
    price is written, no order is filed and nothing is sent. *)
Theorem router_feed_without_quote fq cmd st k :
  cmd_key cmd = Some k ->
  lasts (book st) !! k = None ->
  (forall q, quotes_get (fq (fst k) (snd k)) (snd k) = Some q ->
             quote_last q = None) ->
  fst (stream_and_route_body fq cmd st) = Raise KeyError
  /\ book (snd (stream_and_route_body fq cmd st)) = book st
  /\ sent (snd (stream_and_route_body fq cmd st)) = sent st.
Proof.
  intros Hkey Hlast Hq.
  destruct (cmd_key_brokers cmd k Hkey) as (rest & Hb & Hsym).
  destruct k as [broker sym]. cbn [fst snd] in *. subst sym.
  rewrite (stream_and_route_body_unknown fq cmd st broker rest Hb Hlast).
  cbv zeta.
  destruct (quotes_get (fq broker (cmd_symbol cmd)) (cmd_symbol cmd)) as [q|].
  - rewrite (Hq q Logic.eq_refl). cbn. repeat split.
  - cbn. repeat split.
Qed.

Lemma router_feed_without_quote_witness :
  cmd_key ex_unquoted = Some ("B", "Z")
  /\ lasts (book ex_actor) !! ("B", "Z") = None
  /\ (forall q, quotes_get (ex_feed_x "B" "Z") "Z" = Some q ->
                quote_last q = None)
  /\ fst (stream_and_route_body ex_feed_x ex_unquoted ex_actor) = Raise KeyError
  /\ book (snd (stream_and_route_body ex_feed_x ex_unquoted ex_actor))
     = book ex_actor
  /\ sent (snd (stream_and_route_body ex_feed_x ex_unquoted ex_actor))
     = sent ex_actor.
Proof.
  split; [reflexivity|]. split; [vm_compute; reflexivity|].
  split; [intros q H; vm_compute in H; discriminate H|].
  apply (router_feed_without_quote ex_feed_x ex_unquoted ex_actor ("B", "Z")).
  - reflexivity.
  - vm_compute. reflexivity.
  - intros q H. vm_compute in H. discriminate H.
Defined.

(** X10: the first accepted command of a key starts the feed task of the
    key, the last price of the key becomes the [last] of the first quote of
    that feed, and the predicate of the order is the one [mk_check] builds
    from the trigger price and that last price; the order is the only new
    one and it is acknowledged. *)
Theorem first_command_starts_feed fq cmd st k q last pred name :
  cmd_key cmd = Some k ->
  lasts (book st) !! k = None ->
  quotes_get (fq (fst k) (snd k)) (snd k) = Some q ->
  quote_last q = Some last ->
  mk_check (cmd_price cmd) last = Some (pred, name) ->
  exists st' E,
    stream_and_route_body fq cmd st = (Ok tt, st')
    /\ nursery st' = nursery st ++ [k]
    /\ lasts (book st') = <[k := last]> (lasts (book st))
    /\ bucket st' k = bucket st k ++ [E]
    /\ p_pred E = pred /\ p_name E = name /\ p_cmd E = cmd
    /\ p_oid E = cmd_oid cmd
    /\ sent st' = sent st ++ [AckMsg (cmd_oid cmd)].
Proof.
  intros Hkey Hlast Hq Hql Hmk.
  destruct (cmd_key_brokers cmd k Hkey) as (rest & Hb & Hsym).
  destruct k as [broker sym]. cbn [fst snd] in *. subst sym.
  rewrite (stream_and_route_body_unknown fq cmd st broker rest Hb Hlast).
  cbv zeta. rewrite Hq, Hql, Hmk.
  eexists. eexists. split; [reflexivity|].
  cbn [nursery book lasts sent]. split; [reflexivity|]. split; [reflexivity|].
  split.
  - unfold bucket at 1. cbn [book orders]. rewrite lookup_insert_eq.
    cbn [default]. reflexivity.
  - repeat split.
Qed.

Lemma first_command_starts_feed_witness :
  cmd_key ex_o1 = Some ("B", "X")
  /\ lasts (book init) !! ("B", "X") = None
  /\ quotes_get (ex_feed "B" "X") "X"
     = Some {| quote_last := Some f60; quote_ticks := None |}
  /\ quote_last {| quote_last := Some f60; quote_ticks := None |} = Some f60
  /\ mk_check (cmd_price ex_o1) f60 = Some ((fun price => le price f50), "up")
  /\ exists st' E,
       stream_and_route_body ex_feed ex_o1 init = (Ok tt, st')
       /\ nursery st' = nursery init ++ [("B", "X")]
       /\ lasts (book st') = <[("B", "X") := f60]> (lasts (book init))
       /\ bucket st' ("B", "X") = bucket init ("B", "X") ++ [E]
       /\ p_pred E = (fun price => le price f50) /\ p_name E = "up"
       /\ p_cmd E = ex_o1
       /\ p_oid E = cmd_oid ex_o1
       /\ sent st' = sent init ++ [AckMsg (cmd_oid ex_o1)].
Proof.
  split; [reflexivity|]. split; [reflexivity|]. split; [reflexivity|].
  split; [reflexivity|]. split; [reflexivity|].
  apply (first_command_starts_feed ex_feed ex_o1 init ("B", "X")
           {| quote_last := Some f60; quote_ticks := None |} f60);
    reflexivity.
Defined.

(** ** The order of the comparisons *)

Lemma SFcompare_rank (a b : float) :
  is_nan a = false -> is_nan b = false ->
  SFcompare a b = Some (rank_compare (rank a) (rank b)).
Proof.
  destruct a as [sa|sa| |sa ma ea], b as [sb|sb| |sb mb eb];
    try discriminate; intros _ _;
    try destruct sa; try destruct sb; try reflexivity;
    unfold rank_compare; cbn [SFcompare rank fst snd].
  rewrite Z.compare_opp. rewrite (Z.compare_antisym ea eb).
  destruct (ea ?= eb)%Z; reflexivity.
Qed.

Lemma rank_compare_Lt (a b : Z * Z * Z) :
  rank_compare a b = Lt
  <-> (fst (fst a) < fst (fst b)
       \/ (fst (fst a) = fst (fst b)
           /\ (snd (fst a) < snd (fst b)
               \/ (snd (fst a) = snd (fst b) /\ snd a < snd b))))%Z.
Proof.
  unfold rank_compare.
  destruct (Z.compare_spec (fst (fst a)) (fst (fst b)));
    destruct (Z.compare_spec (snd (fst a)) (snd (fst b)));
    destruct (Z.compare_spec (snd a) (snd b));
    split; intros; try discriminate; try reflexivity; lia.
Qed.

Lemma rank_compare_Eq (a b : Z * Z * Z) :
  rank_compare a b = Eq
  <-> (fst (fst a) = fst (fst b) /\ snd (fst a) = snd (fst b)
       /\ snd a = snd b)%Z.
Proof.
  unfold rank_compare.
  destruct (Z.compare_spec (fst (fst a)) (fst (fst b)));
    destruct (Z.compare_spec (snd (fst a)) (snd (fst b)));
    destruct (Z.compare_spec (snd a) (snd b));
    split; intros; try discriminate; try reflexivity; lia.
Qed.

Lemma rank_compare_Gt (a b : Z * Z * Z) :
  rank_compare a b = Gt <-> rank_compare b a = Lt.
Proof.
  unfold rank_compare.
  rewrite (Z.compare_antisym (fst (fst a)) (fst (fst b))).
  rewrite (Z.compare_antisym (snd (fst a)) (snd (fst b))).
  rewrite (Z.compare_antisym (snd a) (snd b)).
  destruct (fst (fst a) ?= fst (fst b))%Z;
    destruct (snd (fst a) ?= snd (fst b))%Z;
    destruct (snd a ?= snd b)%Z; cbn; split; congruence.
Qed.

Lemma SFcompare_Some_not_nan (a b : float) c :
  SFcompare a b = Some c -> is_nan a = false /\ is_nan b = false.
Proof.
  destruct a as [sa|sa| |sa ma ea], b as [sb|sb| |sb mb eb];
    cbn; try discriminate; auto.
Qed.

(** [a <= b] and [b < c] give [a < c]. *)
Lemma le_lt_trans (a b c : float) :
  le a b = true -> SFcompare b c = Some Lt -> SFcompare a c = Some Lt.
Proof.
  unfold le, SFleb. intros Hab Hbc.
  destruct (SFcompare a b) as [cab|] eqn:Eab; [|discriminate].
  destruct (SFcompare_Some_not_nan _ _ _ Eab) as (Ha & Hb).
  destruct (SFcompare_Some_not_nan _ _ _ Hbc) as (_ & Hc).
  rewrite (SFcompare_rank a b Ha Hb) in Eab.
  rewrite (SFcompare_rank b c Hb Hc) in Hbc.
  rewrite (SFcompare_rank a c Ha Hc). f_equal.
  injection Eab as Eab. injection Hbc as Hbc.
  apply rank_compare_Lt. apply rank_compare_Lt in Hbc.
  destruct cab; [| |discriminate].
  - apply rank_compare_Eq in Eab. lia.
  - apply rank_compare_Lt in Eab. lia.
Qed.

(** [a < b] and [b <= c] give [a < c]. *)
Lemma le_lt_trans_rev (a b c : float) :
  SFcompare a b = Some Lt -> le b c = true -> SFcompare a c = Some Lt.
Proof.
  unfold le, SFleb. intros Hab Hbc.
  destruct (SFcompare b c) as [cbc|] eqn:Ebc; [|discriminate].
  destruct (SFcompare_Some_not_nan _ _ _ Hab) as (Ha & Hb).
  destruct (SFcompare_Some_not_nan _ _ _ Ebc) as (_ & Hc).
  rewrite (SFcompare_rank a b Ha Hb) in Hab.
  rewrite (SFcompare_rank b c Hb Hc) in Ebc.
  rewrite (SFcompare_rank a c Ha Hc). f_equal.
  injection Hab as Hab. injection Ebc as Ebc.
  apply rank_compare_Lt. apply rank_compare_Lt in Hab.
  destruct cbc; [| |discriminate].
  - apply rank_compare_Eq in Ebc. lia.
  - apply rank_compare_Lt in Ebc. lia.
Qed.

(** [a >= b] and [b > c] give [a > c]. *)
Lemma ge_gt_trans (a b c : float) :
  ge a b = true -> SFcompare b c = Some Gt -> SFcompare a c = Some Gt.
Proof.
  intros Hab Hbc. rewrite ge_le in Hab.
  rewrite (SFcompare_antisym c b) in Hbc.
  rewrite (SFcompare_antisym c a).
  destruct (SFcompare c b) as [[]|] eqn:Ecb; try discriminate Hbc.
  rewrite (le_lt_trans_rev c b a Ecb Hab). reflexivity.
Qed.

(** X11: when the trigger price differs from the last price, the
    predicate [mk_check] returns is false on the whole side of the last
    price away from the trigger: with direction 'down' (trigger above) at
    every price at or below the last price, with direction 'up' (trigger
    below) at every price at or above it. *)
Theorem mk_check_quiet_side (trigger_price known_last price : float) pred name :
  mk_check trigger_price known_last = Some (pred, name) ->
  eq trigger_price known_last = false ->
  (if String.eqb name "down" then le price known_last
   else ge price known_last) = true ->
  pred price = false.
Proof.
  unfold mk_check, eq, SFeqb. intros Hmk Hne Hside.
  destruct (ge trigger_price known_last) eqn:Hge.
  - injection Hmk as <- <-. cbn in Hside.
    assert (Hgt : SFcompare trigger_price known_last = Some Gt).
    { revert Hge Hne. unfold ge.
      destruct (SFcompare trigger_price known_last) as [[]|];
        intros; congruence. }
    rewrite (SFcompare_antisym known_last trigger_price) in Hgt.
    destruct (SFcompare known_last trigger_price) as [[]|] eqn:E;
      try discriminate Hgt.
    unfold ge. rewrite (le_lt_trans price known_last trigger_price Hside E).
    reflexivity.
  - destruct (le trigger_price known_last) eqn:Hle; [|discriminate].
    injection Hmk as <- <-. cbn in Hside.
    assert (Hlt : SFcompare trigger_price known_last = Some Lt).
    { revert Hle Hne. unfold le, SFleb.
      destruct (SFcompare trigger_price known_last) as [[]|];
        intros; congruence. }
    rewrite (SFcompare_antisym known_last trigger_price) in Hlt.
    destruct (SFcompare known_last trigger_price) as [[]|] eqn:E;
      try discriminate Hlt.
    unfold le, SFleb.
    rewrite (ge_gt_trans price known_last trigger_price Hside E).
    reflexivity.
Qed.

Lemma mk_check_quiet_side_witness :
  mk_check f50 f60 = Some ((fun price => le price f50), "up")
  /\ eq f50 f60 = false
  /\ (if String.eqb "up" "down" then le f65 f60 else ge f65 f60) = true
  /\ (fun price => le price f50) f65 = false.
Proof.
  split; [reflexivity|]. split; [reflexivity|]. split; [reflexivity|].
  apply (mk_check_quiet_side f50 f60 f65 (fun price => le price f50) "up");
    reflexivity.
Defined.

(** ** The client: alerts and the command channel *)

Lemma alert_sent uuid symbol price ui :
  _orders (snd (alert uuid symbol price ui))
  = {| _sent_orders :=
         <[uuid := alert_cmd uuid symbol price]> (_sent_orders (_orders ui));
       _confirmed_orders := _confirmed_orders (_orders ui) |}.
Proof.
  unfold alert. destruct (send_nowait _ (_to_ems ui)) as [r buf]. reflexivity.
Qed.

(** X12: whatever the channel does, [alert] records the command it built
    under the uuid in [_sent_orders] and leaves the other entries alone;
    an [on_fill] for that uuid then returns and stores that same command in
    [_confirmed_orders]. *)
Theorem alert_then_on_fill uuid symbol price ui :
  let self := _orders (snd (alert uuid symbol price ui)) in
  _sent_orders self !! uuid = Some (alert_cmd uuid symbol price)
  /\ (forall other, other ≠ uuid ->
        _sent_orders self !! other = _sent_orders (_orders ui) !! other)
  /\ _confirmed_orders self = _confirmed_orders (_orders ui)
  /\ on_fill uuid self
     = (Ok tt,
        {| _sent_orders := _sent_orders self;
           _confirmed_orders :=
             <[uuid := alert_cmd uuid symbol price]>
               (_confirmed_orders (_orders ui)) |}).
Proof.
  cbv zeta. rewrite alert_sent. cbn [_sent_orders _confirmed_orders].
  split; [apply lookup_insert_eq|].
  split; [intros other Hne; apply lookup_insert_ne; congruence|].
  split; [reflexivity|].
  unfold on_fill, bind, subscript, modify, ret. cbn [_sent_orders].
  rewrite lookup_insert_eq. reflexivity.
Qed.

Lemma send_nowait_room cmd buf :
  length buf < max_buffer_size -> send_nowait cmd buf = (Done, buf ++ [cmd]).
Proof.
  intros H. unfold send_nowait.
  destruct (Nat.ltb_spec (length buf) max_buffer_size); [reflexivity|lia].
Qed.

Lemma send_nowait_full cmd buf :
  max_buffer_size <= length buf -> send_nowait cmd buf = (WouldBlock, buf).
Proof.
  intros H. unfold send_nowait.
  destruct (Nat.ltb_spec (length buf) max_buffer_size); [lia|reflexivity].
Qed.

(** X13: on a channel that already buffers [max_buffer_size] commands
    [alert] ends with [WouldBlock] and the buffer is as it was, but the
    command is in [_sent_orders] all the same: the book records as sent a
    command that never entered the channel. *)
Theorem alert_on_full_channel uuid symbol price ui :
  max_buffer_size <= length (_to_ems ui) ->
  fst (alert uuid symbol price ui) = WouldBlock
  /\ _to_ems (snd (alert uuid symbol price ui)) = _to_ems ui
  /\ _sent_orders (_orders (snd (alert uuid symbol price ui))) !! uuid
     = Some (alert_cmd uuid symbol price).
Proof.
  intros Hfull. rewrite alert_sent. unfold alert.
  rewrite (send_nowait_full _ _ Hfull). cbn.
  repeat split. apply lookup_insert_eq.
Qed.

Lemma alert_on_full_channel_witness :
  max_buffer_size
  <= length (_to_ems {| _orders := {| _sent_orders := ∅;
                                      _confirmed_orders := ∅ |};
                        _to_ems := replicate 100 ex_o1 |})
  /\ fst (alert "o9" {| sym_key := "X"; sym_brokers := ["B"] |} f50
             {| _orders := {| _sent_orders := ∅; _confirmed_orders := ∅ |};
                _to_ems := replicate 100 ex_o1 |}) = WouldBlock.
Proof.
  split; [vm_compute; apply le_n|].
  apply (alert_on_full_channel "o9" {| sym_key := "X"; sym_brokers := ["B"] |}
           f50 {| _orders := {| _sent_orders := ∅; _confirmed_orders := ∅ |};
                  _to_ems := replicate 100 ex_o1 |}).
  vm_compute. apply le_n.
Defined.

Lemma alerts_room :
  forall reqs ui,
    length (_to_ems ui) + length reqs <= max_buffer_size ->
    fst (alerts reqs ui) = map (fun _ => Done) reqs
    /\ _to_ems (snd (alerts reqs ui))
       = _to_ems ui
         ++ map (fun r : string * Symbol * float =>
                   alert_cmd (fst (fst r)) (snd (fst r)) (snd r)) reqs.
Proof.
  induction reqs as [|[[uuid symbol] price] reqs IH]; intros ui Hroom.
  - cbn. rewrite app_nil_r. split; reflexivity.
  - cbn [alerts]. cbn [length] in Hroom.
    assert (Hstep : alert uuid symbol price ui
                    = (Done,
                       {| _orders := _orders (snd (alert uuid symbol price ui));
                          _to_ems := _to_ems ui
                                     ++ [alert_cmd uuid symbol price] |})).
    { unfold alert. rewrite send_nowait_room by lia. reflexivity. }
    rewrite Hstep.
    destruct (IH {| _orders := _orders (snd (alert uuid symbol price ui));
                    _to_ems := _to_ems ui ++ [alert_cmd uuid symbol price] |})
      as (Hr & Hb).
    { cbn [_to_ems]. rewrite length_app. cbn [length]. lia. }
    destruct (alerts reqs _) as [rs ui2]. cbn [fst snd] in *.
    split.
    + cbn [map]. rewrite Hr. reflexivity.
    + rewrite Hb. cbn [map fst snd _to_ems]. rewrite <- app_assoc. reflexivity.
Qed.

(** X14: alerts that fit in the channel all go through, the forwarding
    task hands them on in the order of the calls, behind what was buffered
    before, and when the router accepts them its acknowledgements come back
    in that same order. *)
Theorem alerts_reach_router_in_order reqs ui :
  length (_to_ems ui) + length reqs <= max_buffer_size ->
  fst (alerts reqs ui) = map (fun _ => Done) reqs
  /\ fst (send_order_cmds (snd (alerts reqs ui)))
     = _to_ems ui
       ++ map (fun r : string * Symbol * float =>
                 alert_cmd (fst (fst r)) (snd (fst r)) (snd r)) reqs
  /\ _to_ems (snd (send_order_cmds (snd (alerts reqs ui)))) = []
  /\ forall fq st st',
       stream_and_route fq (fst (send_order_cmds (snd (alerts reqs ui)))) st
       = (Ok tt, st') ->
       sent st'
       = sent st
         ++ map (fun cmd => AckMsg (cmd_oid cmd)) (_to_ems ui)
         ++ map (fun r : string * Symbol * float => AckMsg (fst (fst r))) reqs.
Proof.
  intros Hroom. destruct (alerts_room reqs ui Hroom) as (Hr & Hb).
  split; [exact Hr|]. unfold send_order_cmds. cbn [fst snd _to_ems].
  split; [exact Hb|]. split; [reflexivity|].
  intros fq st st' Hrun. rewrite (stream_and_route_acks fq _ st st' Hrun).
  rewrite Hb, map_app, map_map. reflexivity.
Qed.

Lemma alerts_reach_router_in_order_witness :
  length (_to_ems {| _orders := {| _sent_orders := ∅; _confirmed_orders := ∅ |};
                     _to_ems := [] |})
  + length [("o1", {| sym_key := "X"; sym_brokers := ["B"] |}, f50);
            ("o2", {| sym_key := "X"; sym_brokers := ["B"] |}, f55)]
  <= max_buffer_size
  /\ fst (send_order_cmds
            (snd (alerts
                    [("o1", {| sym_key := "X"; sym_brokers := ["B"] |}, f50);
                     ("o2", {| sym_key := "X"; sym_brokers := ["B"] |}, f55)]
                    {| _orders := {| _sent_orders := ∅;
                                     _confirmed_orders := ∅ |};
                       _to_ems := [] |})))
     = [] ++ map (fun r : string * Symbol * float =>
                    alert_cmd (fst (fst r)) (snd (fst r)) (snd r))
                 [("o1", {| sym_key := "X"; sym_brokers := ["B"] |}, f50);
                  ("o2", {| sym_key := "X"; sym_brokers := ["B"] |}, f55)].
Proof.
  split; [vm_compute; repeat constructor|].
  apply (alerts_reach_router_in_order
           [("o1", {| sym_key := "X"; sym_brokers := ["B"] |}, f50);
            ("o2", {| sym_key := "X"; sym_brokers := ["B"] |}, f55)]
           {| _orders := {| _sent_orders := ∅; _confirmed_orders := ∅ |};
              _to_ems := [] |}).
  vm_compute. repeat constructor.
Defined.

(** ** The client: what it does with the messages of the actor *)

(** X15: the trigger message of an order whose predicate and direction
    [mk_check] built against the last price [last] is handled by the client
    loop without a missing key: it draws an arrow at the trigger level of
    the order (not at the price of the tick), at the index sent, pointing
    'down' when the trigger price was at or above [last] and 'up'
    otherwise, removes the line of the order and calls the notifier; the
    loop goes on exactly when the notifier returns. *)
Theorem trigger_draws_arrow run_process e last shm_last price :
  mk_check (cmd_price (p_cmd e)) last = Some (p_pred e, p_name e) ->
  String.eqb (cmd_msg (p_cmd e)) "ack" = false ->
  spawn_router_stream_alerts_body run_process
    (CmdMsg (trigger_cmd e shm_last price))
  = ((if run_process (CmdMsg (trigger_cmd e shm_last price)) then None
      else Some CalledProcessError),
     [arrows_add (cmd_oid (p_cmd e)) (shm_last - 1) (cmd_price (p_cmd e))
        (if ge (cmd_price (p_cmd e)) last then "down" else "up");
      remove_line (cmd_oid (p_cmd e));
      notify_send (CmdMsg (trigger_cmd e shm_last price))]).
Proof.
  intros Hmk Hmsg. unfold spawn_router_stream_alerts_body.
  cbn [wire_msg_type wire_oid trigger_cmd cmd_msg cmd_oid cmd_index cmd_name
       cmd_price].
  rewrite Hmsg.
  assert (Hname : (if String.eqb (p_name e) "up" then "up" else "down")
                  = if ge (cmd_price (p_cmd e)) last then "down" else "up").
  { unfold mk_check in Hmk. destruct (ge (cmd_price (p_cmd e)) last).
    - injection Hmk as _ <-. reflexivity.
    - destruct (le (cmd_price (p_cmd e)) last); [|discriminate].
      injection Hmk as _ <-. reflexivity. }
  rewrite Hname.
  destruct (run_process _); reflexivity.
Qed.

Lemma trigger_draws_arrow_witness :
  mk_check (cmd_price ex_o1) f60 = Some ((fun price => le price f50), "up")
  /\ String.eqb (cmd_msg ex_o1) "ack" = false
  /\ spawn_router_stream_alerts_body (fun _ => true)
       (CmdMsg (trigger_cmd
                  {| p_oid := "o1"; p_pred := fun price => le price f50;
                     p_pred_obj := 1; p_name := "up"; p_cmd := ex_o1;
                     p_cmd_obj := 0 |} 10 f48))
     = (None,
        [arrows_add "o1" 9 f50 "up"; remove_line "o1";
         notify_send
           (CmdMsg (trigger_cmd
                      {| p_oid := "o1"; p_pred := fun price => le price f50;
                         p_pred_obj := 1; p_name := "up"; p_cmd := ex_o1;
                         p_cmd_obj := 0 |} 10 f48))]).
Proof.
  split; [reflexivity|]. split; [reflexivity|].
  exact (trigger_draws_arrow (fun _ => true)
           {| p_oid := "o1"; p_pred := fun price => le price f50;
              p_pred_obj := 1; p_name := "up"; p_cmd := ex_o1;
              p_cmd_obj := 0 |} f60 10 f48 Logic.eq_refl Logic.eq_refl).
Defined.

Lemma sends_readable_refl st : sends_readable st st.
Proof. exists []. rewrite app_nil_r. split; [reflexivity|constructor]. Qed.

Lemma sends_readable_trans a b c :
  sends_readable a b -> sends_readable b c -> sends_readable a c.
Proof.
  intros (n1 & H1 & F1) (n2 & H2 & F2). exists (n1 ++ n2). split.
  - rewrite H2, H1, app_assoc. reflexivity.
  - apply Forall_app. split; assumption.
Qed.

Lemma triggers_of_readable shm_last price l :
  Forall readable (triggers_of shm_last price l).
Proof.
  induction l as [|e l IH]; [constructor|].
  rewrite triggers_of_cons. destruct (p_pred e price); [|exact IH].
  constructor; [|exact IH]. cbn. split; eauto.
Qed.

Lemma exec_tick_readable broker symbol shm_last sym t st :
  sends_readable st (snd (exec_tick broker symbol shm_last sym t st)).
Proof.
  destruct (tick_price t) as [price|] eqn:Hp.
  - destruct (lt price zero) eqn:Hlt.
    + rewrite (exec_tick_negative _ _ _ _ _ _ st Hp Hlt).
      apply sends_readable_refl.
    + destruct (exec_tick_spec broker symbol shm_last sym t price st Hp Hlt)
        as (st' & Hrun & Hsent & _).
      rewrite Hrun. eexists. split; [exact Hsent|].
      apply triggers_of_readable.
  - unfold exec_tick. rewrite Hp. apply sends_readable_refl.
Qed.

Lemma step_readable fq i st st' :
  step fq i st = (Ok tt, st') -> sends_readable st st'.
Proof.
  destruct i as [cmd|broker symbol shm_last qs]; cbn [step]; intros H.
  - destruct (stream_and_route_body_ok fq cmd st st' H)
      as (broker & rest & last & pred & name & _ & _ & _ & _ & _ & Hs & _).
    eexists. split; [exact Hs|]. constructor; [exact I|constructor].
  - unfold bind at 1 in H. unfold gets at 1 in H.
    destruct (existsb (key_eqb (broker, symbol)) (nursery st)).
    + assert (Hr : sends_readable st
                     (snd (exec_quotes broker symbol shm_last qs st))).
      { unfold exec_quotes. apply (for_rel sends_readable).
        - apply sends_readable_refl.
        - apply sends_readable_trans.
        - intros [s q] st1 _. cbn [exec_quote].
          apply (for_rel sends_readable).
          + apply sends_readable_refl.
          + apply sends_readable_trans.
          + intros t st2 _. apply exec_tick_readable. }
      rewrite H in Hr. exact Hr.
    + injection H as <-. apply sends_readable_refl.
Qed.

Lemma run_readable fq trace :
  forall st st', run fq trace st = (Ok tt, st') -> sends_readable st st'.
Proof.
  unfold run. induction trace as [|i trace IH]; intros st st' H.
  - injection H as <-. apply sends_readable_refl.
  - apply for_ok_cons in H as (st1 & H1 & H2).
    exact (sends_readable_trans _ _ _ (step_readable fq i st st1 H1)
             (IH st1 st' H2)).
Qed.

Lemma spawn_router_stream_alerts_readable run_process :
  forall stream,
    Forall readable stream ->
    fst (spawn_router_stream_alerts run_process stream) ≠ Some MissingKey.
Proof.
  induction 1 as [|m stream Hm _ IH]; cbn [spawn_router_stream_alerts].
  - discriminate.
  - assert (Hbody : fst (spawn_router_stream_alerts_body run_process m)
                    ≠ Some MissingKey).
    { unfold spawn_router_stream_alerts_body.
      destruct (String.eqb (wire_msg_type m) "ack") eqn:E; [discriminate|].
      destruct m as [cmd|oid]; [|discriminate E].
      destruct Hm as ((index & ->) & (name & ->)).
      destruct (run_process _); discriminate. }
    destruct (spawn_router_stream_alerts_body run_process m) as [[e|] calls].
    + exact Hbody.
    + destruct (spawn_router_stream_alerts run_process stream) as [r calls'].
      exact IH.
Qed.

(** X16: whatever commands and quote batches the actor has handled, the
    client loop reads the messages it has sent without a missing key: the
    loop can only end on them because the notifier fails. *)
Theorem client_reads_every_message fq trace st run_process :
  run fq trace init = (Ok tt, st) ->
  fst (spawn_router_stream_alerts run_process (sent st)) ≠ Some MissingKey.
Proof.
  intros Hrun. destruct (run_readable fq trace init st Hrun) as (new & Hs & Hf).
  rewrite Hs. apply spawn_router_stream_alerts_readable. exact Hf.
Qed.

Lemma client_reads_every_message_witness :
  run ex_feed ex_trace init = (Ok tt, ex_traced)
  /\ fst (spawn_router_stream_alerts (fun _ => true) (sent ex_traced))
     ≠ Some MissingKey.
Proof.
  split; [exact ex_traced_ok|].
  exact (client_reads_every_message ex_feed ex_trace ex_traced (fun _ => true)
           ex_traced_ok).
Defined.

(** ** The acknowledgement comes first *)

Lemma triggers_of_elem shm_last price l m :
  m ∈ triggers_of shm_last price l ->
  exists e, e ∈ l /\ m = CmdMsg (trigger_cmd e shm_last price).
Proof.
  induction l as [|e l IH]; [intros H; inversion H|].
  rewrite triggers_of_cons. destruct (p_pred e price).
  - intros H. apply elem_of_cons in H as [->|H].
    + exists e. split; [apply list_elem_of_here|reflexivity].
    + destruct (IH H) as (e' & He' & ->). exists e'.
      split; [apply list_elem_of_further, He'|reflexivity].
  - intros H. destruct (IH H) as (e' & He' & ->). exists e'.
    split; [apply list_elem_of_further, He'|reflexivity].
Qed.

Lemma acked_first_app ms new :
  acked_first ms ->
  (forall cmd, CmdMsg cmd ∈ new -> AckMsg (cmd_oid cmd) ∈ ms) ->
  acked_first (ms ++ new).
Proof.
  intros Hms Hnew l1 cmd l2 Heq.
  apply app_eq_app in Heq as (l & [(-> & Hl)|(-> & Hl)]).
  - destruct l as [|m l].
    + rewrite app_nil_r in Hnew. apply Hnew. cbn in Hl. rewrite <- Hl.
      apply list_elem_of_here.
    + cbn in Hl. injection Hl as <- ->. apply (Hms l1 cmd l). reflexivity.
  - apply elem_of_app. left. apply Hnew. rewrite Hl.
    apply elem_of_app. right. apply list_elem_of_here.
Qed.

Lemma exec_tick_acked broker symbol shm_last sym t st :
  pending_acked st /\ acked_first (sent st) ->
  pending_acked (snd (exec_tick broker symbol shm_last sym t st))
  /\ acked_first (sent (snd (exec_tick broker symbol shm_last sym t st))).
Proof.
  intros (Hp & Ha). destruct (tick_price t) as [price|] eqn:Hpr.
  - destruct (lt price zero) eqn:Hlt.
    + rewrite (exec_tick_negative _ _ _ _ _ _ st Hpr Hlt). split; assumption.
    + destruct (exec_tick_spec broker symbol shm_last sym t price st Hpr Hlt)
        as (st' & Hrun & Hsent & _ & _ & _ & Hother & _ & Hin).
      rewrite Hrun. cbn [snd]. split.
      * intros k e He. rewrite Hsent. apply elem_of_app. left.
        destruct (decide (k = (broker, sym))) as [->|Hne].
        -- exact (Hp _ e (Hin e He)).
        -- apply (Hp k e). unfold bucket in *.
           rewrite (Hother k Hne) in He. exact He.
      * rewrite Hsent. apply acked_first_app; [exact Ha|].
        intros cmd Hcmd. apply triggers_of_elem in Hcmd as (e & He & Heq).
        injection Heq as ->. exact (Hp _ e He).
  - unfold exec_tick. rewrite Hpr. split; assumption.
Qed.

Lemma step_acked fq i st st' :
  step fq i st = (Ok tt, st') ->
  pending_acked st /\ acked_first (sent st) ->
  pending_acked st' /\ acked_first (sent st').
Proof.
  destruct i as [cmd|broker symbol shm_last qs]; cbn [step]; intros H (Hp & Ha).
  - destruct (stream_and_route_body_key fq cmd st st' H) as (k0 & Hk0).
    destruct (stream_and_route_body_appends fq cmd st st' k0 H Hk0)
      as ((E & last & HE & HcE & _) & Hother).
    destruct (stream_and_route_body_ok fq cmd st st' H)
      as (broker & rest & last' & pred & name & _ & _ & _ & _ & _ & Hs & _).
    split; [|rewrite Hs].
    + intros k e He. rewrite Hs. destruct (decide (k = k0)) as [->|Hne].
      * rewrite HE in He. apply elem_of_app in He as [He|He].
        -- apply elem_of_app. left. exact (Hp k0 e He).
        -- apply list_elem_of_singleton in He. subst e. rewrite HcE.
           apply elem_of_app. right. apply list_elem_of_here.
      * rewrite (Hother k Hne) in He. apply elem_of_app. left.
        exact (Hp k e He).
    + apply acked_first_app; [exact Ha|].
      intros c Hc. apply list_elem_of_singleton in Hc. discriminate Hc.
  - unfold bind at 1 in H. unfold gets at 1 in H.
    destruct (existsb (key_eqb (broker, symbol)) (nursery st)).
    + assert (Hr : (fun a b => pending_acked a /\ acked_first (sent a) ->
                              pending_acked b /\ acked_first (sent b))
                     st (snd (exec_quotes broker symbol shm_last qs st))).
      { unfold exec_quotes.
        apply (for_rel (fun a b => pending_acked a /\ acked_first (sent a) ->
                                  pending_acked b /\ acked_first (sent b)));
          [auto|auto|].
        intros [s q] st1 _. cbn [exec_quote].
        apply (for_rel (fun a b => pending_acked a /\ acked_first (sent a) ->
                                  pending_acked b /\ acked_first (sent b)));
          [auto|auto|].
        intros t st2 _. apply exec_tick_acked. }
      rewrite H in Hr. apply Hr. split; assumption.
    + injection H as <-. split; assumption.
Qed.

Lemma run_acked fq trace :
  forall st st',
    run fq trace st = (Ok tt, st') ->
    pending_acked st /\ acked_first (sent st) ->
    pending_acked st' /\ acked_first (sent st').
Proof.
  unfold run. induction trace as [|i trace IH]; intros st st' H Hinv.
  - injection H as <-. exact Hinv.
  - apply for_ok_cons in H as (st1 & H1 & H2).
    exact (IH st1 st' H2 (step_acked fq i st st1 H1 Hinv)).
Qed.

(** X17: in the messages the actor has sent, whatever commands and quote
    batches it has handled, every trigger message comes after an
    acknowledgement with the same oid; and every order still pending has
    been acknowledged. *)
Theorem ack_precedes_trigger fq trace st :
  run fq trace init = (Ok tt, st) ->
  (forall before cmd after,
     sent st = before ++ CmdMsg cmd :: after ->
     AckMsg (cmd_oid cmd) ∈ before)
  /\ (forall k e, e ∈ bucket st k -> AckMsg (cmd_oid (p_cmd e)) ∈ sent st).
Proof.
  intros Hrun.
  destruct (run_acked fq trace init st Hrun) as (Hp & Ha).
  - split.
    + intros k e He. unfold bucket, init in He. cbn in He.
      rewrite lookup_empty in He. inversion He.
    + intros l1 cmd l2 Heq. cbn in Heq. destruct l1; discriminate Heq.
  - split; [exact Ha|exact Hp].
Qed.

Lemma ack_precedes_trigger_witness :
  run ex_feed ex_trace init = (Ok tt, ex_traced)
  /\ (forall before cmd after,
        sent ex_traced = before ++ CmdMsg cmd :: after ->
        AckMsg (cmd_oid cmd) ∈ before)
  /\ (forall k e, e ∈ bucket ex_traced k ->
                  AckMsg (cmd_oid (p_cmd e)) ∈ sent ex_traced).
Proof.
  split; [exact ex_traced_ok|].
  exact (ack_precedes_trigger ex_feed ex_trace ex_traced ex_traced_ok).
Defined.
